(** * SpeechCore: the client streaming pipeline of voice-recognition-page.tsx

    A shallow embedding of the browser side of the live transcription
    pipeline (SpeechCore_Demo/app, component [VoiceRecognitionPage]):
    the audio utilities [resample] and [toWav], the chunker
    [flushChunk], the sequential WebSocket queue [processQueue], the
    result handler that folds texts into the transcript, the payload
    builder and the start / stop handlers.

    JavaScript numbers are IEEE-754 binary64 values; they are embedded as
    Rocq's primitive floats, whose operations are the same binary64
    operations, so the arithmetic of the source is evaluated bit for bit.
    Integers that the source only uses as byte offsets and sizes are
    embedded as [Z].  Strings are sequences of UTF-16 code units. *)

From Stdlib Require Import String Ascii.
From Stdlib Require Import ZArith List Bool Lia Floats Uint63.
From Stdlib Require DecimalString.
Import ListNotations.
Open Scope Z_scope.

(** ** JavaScript numbers *)

Module JSNum.

(** Integer-valued numbers (array lengths, loop counters) as doubles. *)
Definition of_Z (z : Z) : float :=
  if z <? 0 then (- of_uint63 (Uint63.of_Z (- z)))%float
  else of_uint63 (Uint63.of_Z z).

Definition signed (s : bool) (m : positive) : Z :=
  if s then Zneg m else Zpos m.

(** The mathematical integer a finite double holds, when it holds one. *)
Definition toZ_exact (x : float) : option Z :=
  match Prim2SF x with
  | S754_zero _ => Some 0
  | S754_finite s m e =>
      if 0 <=? e then Some (signed s m * 2 ^ e)
      else if (Zpos m) mod 2 ^ (- e) =? 0 then Some (signed s m / 2 ^ (- e))
      else None
  | _ => None
  end.

(** [Math.floor] *)
Definition Math_floor (x : float) : float :=
  match Prim2SF x with
  | S754_finite s m e =>
      if 0 <=? e then x else of_Z (signed s m / 2 ^ (- e))
  | _ => x
  end.

(** [Math.round]: nearest integer, ties towards +infinity; a result of
    zero keeps the sign of a negative argument. *)
Definition Math_round (x : float) : float :=
  match Prim2SF x with
  | S754_finite s m e =>
      if 0 <=? e then x
      else
        let r := (2 * signed s m + 2 ^ (- e)) / 2 ^ (- e + 1) in
        if (r =? 0) && s then (-0)%float else of_Z r
  | _ => x
  end.

(** [Math.min(1, x)] and [Math.max(-1, x)] as ECMAScript computes them,
    a NaN argument giving NaN; written for a first argument that is
    neither NaN nor a zero, which is how [toWav] calls them. *)
Definition Math_min (a x : float) : float :=
  if is_nan x then nan else if (x <? a)%float then x else a.

Definition Math_max (a x : float) : float :=
  if is_nan x then nan else if (a <? x)%float then x else a.

(** ToIntegerOrInfinity followed by the range test of ToIndex, as the
    [Float32Array] constructor applies it to its length argument:
    [None] is the RangeError. *)
Definition ToIndex (x : float) : option Z :=
  match Prim2SF x with
  | S754_nan => Some 0
  | S754_zero _ => Some 0
  | S754_infinity _ => None
  | S754_finite s m e =>
      let t := if 0 <=? e then signed s m * 2 ^ e
               else Z.quot (signed s m) (2 ^ (- e)) in
      if (0 <=? t) && (t <=? 2 ^ 53 - 1) then Some t else None
  end.

(** ToInt16, the conversion [DataView.setInt16] applies to its value. *)
Definition ToInt16 (x : float) : Z :=
  match Prim2SF x with
  | S754_finite s m e =>
      let t := if 0 <=? e then signed s m * 2 ^ e
               else Z.quot (signed s m) (2 ^ (- e)) in
      let u := t mod 65536 in
      if 32768 <=? u then u - 65536 else u
  | _ => 0
  end.


(** Rounding to binary32 and widening back, which storing a number in
    a [Float32Array] performs. *)
Definition fround (x : float) : float :=
  match Prim2SF x with
  | S754_finite s m e =>
      match binary_round 24 128 s m e with
      | S754_finite s' m' e' => SF2Prim (binary_round prec emax s' m' e')
      | r => SF2Prim r
      end
  | _ => x
  end.

(** Reading [a[idx]] from a typed array with a number as the key: an
    element when [idx] is an integer inside the array, [undefined]
    ([None]) otherwise. *)
Definition typed_get (a : list float) (idx : float) : option float :=
  match toZ_exact idx with
  | Some z =>
      if (0 <=? z) && (z <? Z.of_nat (length a))
      then nth_error a (Z.to_nat z) else None
  | None => None
  end.

(** [v ?? d] *)
Definition nullish (v : option float) (d : float) : float :=
  match v with Some x => x | None => d end.

End JSNum.

Import JSNum.

(** ** Audio utilities: [resample] and [toWav] *)

Module Audio.

Definition TARGET_SR : float := 16000.
Definition TARGET_SR_hz : Z := 16000.

(** An error monad for the exceptions of the typed-array and DataView
    operations ([None] is a RangeError). *)
Definition bind {A B : Type} (m : option A) (k : A -> option B) : option B :=
  match m with Some a => k a | None => None end.

Notation "x <- m ;; k" := (bind m (fun x => k))
  (at level 61, m at next level, right associativity).

(** One output sample of [resample]: the body of its loop, before the
    store into the [Float32Array]. *)
Definition interpolate (f32 : list float) (ratio : float) (i : Z) : float :=
  let pos := (of_Z i * ratio)%float in
  let idx := Math_floor pos in
  let frac := (pos - idx)%float in
  (nullish (typed_get f32 idx) 0
   + frac * (nullish (typed_get f32 (idx + 1)) 0
             - nullish (typed_get f32 idx) 0))%float.

Definition resample (f32 : list float) (srcSR : float) : option (list float) :=
  if (srcSR =? TARGET_SR)%float then Some f32
  else
    let ratio := (srcSR / TARGET_SR)%float in
    n <- ToIndex (Math_round (of_Z (Z.of_nat (length f32)) / ratio)) ;;
    Some (map (fun i => fround (interpolate f32 ratio (Z.of_nat i)))
              (seq 0 (Z.to_nat n))).

(** An [ArrayBuffer] seen through a [DataView]: bytes as integers in
    [0, 255]. *)
Definition buffer := list Z.

Definition ArrayBuffer (n : Z) : buffer := repeat 0 (Z.to_nat n).

(** Little-endian bytes of an unsigned integer. *)
Fixpoint le_bytes (k : nat) (v : Z) : list Z :=
  match k with
  | O => []
  | S k' => v mod 256 :: le_bytes k' (v / 256)
  end.

(** Writing [bs] at byte offset [off]; out of the buffer is a
    RangeError. *)
Definition put (v : buffer) (off : Z) (bs : list Z) : option buffer :=
  if (0 <=? off) && (off + Z.of_nat (length bs) <=? Z.of_nat (length v))
  then Some (firstn (Z.to_nat off) v ++ bs
             ++ skipn (Z.to_nat off + length bs) v)
  else None.

Definition setUint8 (v : buffer) (o x : Z) : option buffer :=
  put v o (le_bytes 1 (x mod 256)).
Definition setUint16 (v : buffer) (o x : Z) : option buffer :=
  put v o (le_bytes 2 (x mod 65536)).
Definition setUint32 (v : buffer) (o x : Z) : option buffer :=
  put v o (le_bytes 4 (x mod 4294967296)).
Definition setInt16 (v : buffer) (o : Z) (x : float) : option buffer :=
  put v o (le_bytes 2 (ToInt16 x mod 65536)).

(** The helper [s] of [toWav]: the char codes of [str] from offset [o]. *)
Fixpoint s (v : buffer) (o : Z) (str : string) : option buffer :=
  match str with
  | EmptyString => Some v
  | String c rest =>
      v' <- setUint8 v o (Z.of_N (N_of_ascii c)) ;;
      s v' (o + 1) rest
  end.

Definition clamp (x : float) : float := Math_max (-1) (Math_min 1 x).

(** The number handed to [setInt16] for one sample. *)
Definition scaled (x : float) : float :=
  let x := clamp x in
  if (x <? 0)%float then (x * 32768)%float else (x * 32767)%float.

(** The sample loop of [toWav], from index [i]. *)
Fixpoint samples (v : buffer) (i : Z) (f32 : list float) : option buffer :=
  match f32 with
  | [] => Some v
  | x :: rest =>
      v' <- setInt16 v (44 + i * 2) (scaled x) ;;
      samples v' (i + 1) rest
  end.

Record Blob := { bytes : buffer; type : string }.

Definition size (b : Blob) : Z := Z.of_nat (length (bytes b)).

Definition toWav (f32 : list float) (sr : Z) : option Blob :=
  let n := Z.of_nat (length f32) in
  let v := ArrayBuffer (44 + n * 2) in
  v <- s v 0 "RIFF" ;; v <- setUint32 v 4 (36 + n * 2) ;;
  v <- s v 8 "WAVE" ;; v <- s v 12 "fmt " ;;
  v <- setUint32 v 16 16 ;; v <- setUint16 v 20 1 ;; v <- setUint16 v 22 1 ;;
  v <- setUint32 v 24 sr ;; v <- setUint32 v 28 (sr * 2) ;;
  v <- setUint16 v 32 2 ;; v <- setUint16 v 34 16 ;;
  v <- s v 36 "data" ;; v <- setUint32 v 40 (n * 2) ;;
  v <- samples v 0 f32 ;;
  Some {| bytes := v; type := "audio/wav" |}.

End Audio.

Import Audio.

(** ** Strings *)

Module Str.

(** A string is its sequence of UTF-16 code units. *)
Definition jsstring := list N.

Definition of_string (t : string) : jsstring :=
  map N_of_ascii (list_ascii_of_string t).

(** WhiteSpace and LineTerminator of ECMAScript, which [trim] strips. *)
Definition is_white (c : N) : bool :=
  (((9 <=? c) && (c <=? 13)) || (c =? 32) || (c =? 160) || (c =? 5760)
   || ((8192 <=? c) && (c <=? 8202)) || (c =? 8232) || (c =? 8233)
   || (c =? 8239) || (c =? 8287) || (c =? 12288) || (c =? 65279))%N.

Fixpoint trimStart (t : jsstring) : jsstring :=
  match t with
  | c :: r => if is_white c then trimStart r else t
  | [] => []
  end.

Definition trim (t : jsstring) : jsstring :=
  rev (trimStart (rev (trimStart t))).

Fixpoint startsWith (t u : jsstring) : bool :=
  match u, t with
  | [], _ => true
  | c :: u', d :: t' => (c =? d)%N && startsWith t' u'
  | _ :: _, [] => false
  end.

Definition endsWith (t u : jsstring) : bool := startsWith (rev t) (rev u).

Definition space : jsstring := [32%N].

(** The last code unit, if any. *)
Definition last_unit (t : jsstring) : option N :=
  match rev t with c :: _ => Some c | [] => None end.

End Str.

Import Str.

(** ** The page: state, handlers and events *)

Module Page.

Inductive Engine := whisper | vosk | gladia.
Inductive WsStatus := disconnected | connecting | ready | error_.
Inductive LogTag := SEND | RECV | DROP | WARN | ERR.

Definition Engine_eqb (a b : Engine) : bool :=
  match a, b with
  | whisper, whisper | vosk, vosk | gladia, gladia => true
  | _, _ => false
  end.

Definition WsStatus_eqb (a b : WsStatus) : bool :=
  match a, b with
  | disconnected, disconnected | connecting, connecting
  | ready, ready | error_, error_ => true
  | _, _ => false
  end.

(** Constants of the page.  [SILENCE] is the double that the literal
    0.004 denotes. *)
Definition SILENCE : float := 0x1.0624dd2f1a9fcp-8.

Definition NB_MIN (e : Engine) : Z :=
  match e with vosk => 1 | whisper => 1 | gladia => 0 end.

(** The message of one chunk.  [audio] holds the bytes of the waveform:
    the base64 text that [blobToBase64] produces is an encoding of
    exactly these bytes. *)
Record Payload := {
  audio : Blob;
  p_engine : Engine;
  nb_locuteurs : Z;
  modele_vosk : option string;
  config_whisper : option string;
  methode_bruit : option string;
  type_environnement : option string
}.

(** A chunk taken from the queue and not yet finished: [socket] is
    [None] while [blobToBase64] is pending and holds the payload once
    the WebSocket exists. *)
Record Job := { id : nat; wav : Blob; socket : option Payload }.

(** What [JSON.parse] returns for a field. *)
Inductive Json :=
| JNull | JFalse | JTrue
| JNum (x : float)
| JStr (t : jsstring)
| JObject.

(** A frame received on the socket, by what the handler can see of it:
    text that does not parse (or parses to null), or an object, with
    its [type] and, for a result, its [transcription_complete] field
    when present. *)
Inductive Message :=
| Unparsable
| Status
| Result (transcription_complete : option Json)
| ServerError
| OtherType.

(** The page state: the React state of the component, its refs, and
    the pending asynchronous work of the browser.  [pending] counts the
    getUserMedia promises of [startRecording] that are not settled;
    [jobs] holds the chunks in flight; [chunkTmr] is the live interval
    that [chunkTmrRef] designates, with its period, and [capture] tells
    whether the processor that [procRef] designates is connected.
    [strayTmrs] and [strayProcs] are the live intervals and the
    connected processors (each with its stream and context) that no ref
    designates any more: [startRecording] overwrites the refs without
    clearing what they held, and nothing in the page can reach them
    afterwards.  [wire] and [dispatched] record what was handed to
    [ws.send] and what was taken from the queue, in order.  The
    statistics counters and the text of the log lines are left out; a
    log line is its tag. *)
Record state := {
  isRecording : bool;
  transcript : jsstring;
  wsStatus : WsStatus;
  error : option string;
  engine : Engine;
  nbLocuteurs : Z;
  chunkMs : Z;
  logs : list LogTag;
  capture : bool;
  pcmBuf : list (list float);
  nativeSR : float;
  wsQueue : list Blob;
  wsBusy : bool;
  chunkTmr : option Z;
  running : bool;
  pending : nat;
  jobs : list Job;
  nextJob : nat;
  wire : list Payload;
  dispatched : list Blob;
  strayTmrs : list Z;
  strayProcs : nat
}.

Definition set_isRecording (v : bool) (st : state) : state :=
  let 'Build_state _ x1 x2 x3 x4 x5 x6 x7 x8 x9 x10 x11 x12 x13 x14 x15 x16 x17 x18 x19 x20 x21 := st in
  Build_state v x1 x2 x3 x4 x5 x6 x7 x8 x9 x10 x11 x12 x13 x14 x15 x16 x17 x18 x19 x20 x21.

Definition set_transcript (v : jsstring) (st : state) : state :=
  let 'Build_state x0 _ x2 x3 x4 x5 x6 x7 x8 x9 x10 x11 x12 x13 x14 x15 x16 x17 x18 x19 x20 x21 := st in
  Build_state x0 v x2 x3 x4 x5 x6 x7 x8 x9 x10 x11 x12 x13 x14 x15 x16 x17 x18 x19 x20 x21.

Definition set_wsStatus (v : WsStatus) (st : state) : state :=
  let 'Build_state x0 x1 _ x3 x4 x5 x6 x7 x8 x9 x10 x11 x12 x13 x14 x15 x16 x17 x18 x19 x20 x21 := st in
  Build_state x0 x1 v x3 x4 x5 x6 x7 x8 x9 x10 x11 x12 x13 x14 x15 x16 x17 x18 x19 x20 x21.

Definition set_error (v : option string) (st : state) : state :=
  let 'Build_state x0 x1 x2 _ x4 x5 x6 x7 x8 x9 x10 x11 x12 x13 x14 x15 x16 x17 x18 x19 x20 x21 := st in
  Build_state x0 x1 x2 v x4 x5 x6 x7 x8 x9 x10 x11 x12 x13 x14 x15 x16 x17 x18 x19 x20 x21.

Definition set_engine (v : Engine) (st : state) : state :=
  let 'Build_state x0 x1 x2 x3 _ x5 x6 x7 x8 x9 x10 x11 x12 x13 x14 x15 x16 x17 x18 x19 x20 x21 := st in
  Build_state x0 x1 x2 x3 v x5 x6 x7 x8 x9 x10 x11 x12 x13 x14 x15 x16 x17 x18 x19 x20 x21.

Definition set_nbLocuteurs (v : Z) (st : state) : state :=
  let 'Build_state x0 x1 x2 x3 x4 _ x6 x7 x8 x9 x10 x11 x12 x13 x14 x15 x16 x17 x18 x19 x20 x21 := st in
  Build_state x0 x1 x2 x3 x4 v x6 x7 x8 x9 x10 x11 x12 x13 x14 x15 x16 x17 x18 x19 x20 x21.

Definition set_chunkMs (v : Z) (st : state) : state :=
  let 'Build_state x0 x1 x2 x3 x4 x5 _ x7 x8 x9 x10 x11 x12 x13 x14 x15 x16 x17 x18 x19 x20 x21 := st in
  Build_state x0 x1 x2 x3 x4 x5 v x7 x8 x9 x10 x11 x12 x13 x14 x15 x16 x17 x18 x19 x20 x21.

Definition set_logs (v : list LogTag) (st : state) : state :=
  let 'Build_state x0 x1 x2 x3 x4 x5 x6 _ x8 x9 x10 x11 x12 x13 x14 x15 x16 x17 x18 x19 x20 x21 := st in
  Build_state x0 x1 x2 x3 x4 x5 x6 v x8 x9 x10 x11 x12 x13 x14 x15 x16 x17 x18 x19 x20 x21.

Definition set_capture (v : bool) (st : state) : state :=
  let 'Build_state x0 x1 x2 x3 x4 x5 x6 x7 _ x9 x10 x11 x12 x13 x14 x15 x16 x17 x18 x19 x20 x21 := st in
  Build_state x0 x1 x2 x3 x4 x5 x6 x7 v x9 x10 x11 x12 x13 x14 x15 x16 x17 x18 x19 x20 x21.

Definition set_pcmBuf (v : list (list float)) (st : state) : state :=
  let 'Build_state x0 x1 x2 x3 x4 x5 x6 x7 x8 _ x10 x11 x12 x13 x14 x15 x16 x17 x18 x19 x20 x21 := st in
  Build_state x0 x1 x2 x3 x4 x5 x6 x7 x8 v x10 x11 x12 x13 x14 x15 x16 x17 x18 x19 x20 x21.

Definition set_nativeSR (v : float) (st : state) : state :=
  let 'Build_state x0 x1 x2 x3 x4 x5 x6 x7 x8 x9 _ x11 x12 x13 x14 x15 x16 x17 x18 x19 x20 x21 := st in
  Build_state x0 x1 x2 x3 x4 x5 x6 x7 x8 x9 v x11 x12 x13 x14 x15 x16 x17 x18 x19 x20 x21.

Definition set_wsQueue (v : list Blob) (st : state) : state :=
  let 'Build_state x0 x1 x2 x3 x4 x5 x6 x7 x8 x9 x10 _ x12 x13 x14 x15 x16 x17 x18 x19 x20 x21 := st in
  Build_state x0 x1 x2 x3 x4 x5 x6 x7 x8 x9 x10 v x12 x13 x14 x15 x16 x17 x18 x19 x20 x21.

Definition set_wsBusy (v : bool) (st : state) : state :=
  let 'Build_state x0 x1 x2 x3 x4 x5 x6 x7 x8 x9 x10 x11 _ x13 x14 x15 x16 x17 x18 x19 x20 x21 := st in
  Build_state x0 x1 x2 x3 x4 x5 x6 x7 x8 x9 x10 x11 v x13 x14 x15 x16 x17 x18 x19 x20 x21.

Definition set_chunkTmr (v : option Z) (st : state) : state :=
  let 'Build_state x0 x1 x2 x3 x4 x5 x6 x7 x8 x9 x10 x11 x12 _ x14 x15 x16 x17 x18 x19 x20 x21 := st in
  Build_state x0 x1 x2 x3 x4 x5 x6 x7 x8 x9 x10 x11 x12 v x14 x15 x16 x17 x18 x19 x20 x21.

Definition set_running (v : bool) (st : state) : state :=
  let 'Build_state x0 x1 x2 x3 x4 x5 x6 x7 x8 x9 x10 x11 x12 x13 _ x15 x16 x17 x18 x19 x20 x21 := st in
  Build_state x0 x1 x2 x3 x4 x5 x6 x7 x8 x9 x10 x11 x12 x13 v x15 x16 x17 x18 x19 x20 x21.

Definition set_pending (v : nat) (st : state) : state :=
  let 'Build_state x0 x1 x2 x3 x4 x5 x6 x7 x8 x9 x10 x11 x12 x13 x14 _ x16 x17 x18 x19 x20 x21 := st in
  Build_state x0 x1 x2 x3 x4 x5 x6 x7 x8 x9 x10 x11 x12 x13 x14 v x16 x17 x18 x19 x20 x21.

Definition set_jobs (v : list Job) (st : state) : state :=
  let 'Build_state x0 x1 x2 x3 x4 x5 x6 x7 x8 x9 x10 x11 x12 x13 x14 x15 _ x17 x18 x19 x20 x21 := st in
  Build_state x0 x1 x2 x3 x4 x5 x6 x7 x8 x9 x10 x11 x12 x13 x14 x15 v x17 x18 x19 x20 x21.

Definition set_nextJob (v : nat) (st : state) : state :=
  let 'Build_state x0 x1 x2 x3 x4 x5 x6 x7 x8 x9 x10 x11 x12 x13 x14 x15 x16 _ x18 x19 x20 x21 := st in
  Build_state x0 x1 x2 x3 x4 x5 x6 x7 x8 x9 x10 x11 x12 x13 x14 x15 x16 v x18 x19 x20 x21.

Definition set_wire (v : list Payload) (st : state) : state :=
  let 'Build_state x0 x1 x2 x3 x4 x5 x6 x7 x8 x9 x10 x11 x12 x13 x14 x15 x16 x17 _ x19 x20 x21 := st in
  Build_state x0 x1 x2 x3 x4 x5 x6 x7 x8 x9 x10 x11 x12 x13 x14 x15 x16 x17 v x19 x20 x21.

Definition set_dispatched (v : list Blob) (st : state) : state :=
  let 'Build_state x0 x1 x2 x3 x4 x5 x6 x7 x8 x9 x10 x11 x12 x13 x14 x15 x16 x17 x18 _ x20 x21 := st in
  Build_state x0 x1 x2 x3 x4 x5 x6 x7 x8 x9 x10 x11 x12 x13 x14 x15 x16 x17 x18 v x20 x21.

Definition set_strayTmrs (v : list Z) (st : state) : state :=
  let 'Build_state x0 x1 x2 x3 x4 x5 x6 x7 x8 x9 x10 x11 x12 x13 x14 x15 x16 x17 x18 x19 _ x21 := st in
  Build_state x0 x1 x2 x3 x4 x5 x6 x7 x8 x9 x10 x11 x12 x13 x14 x15 x16 x17 x18 x19 v x21.

Definition set_strayProcs (v : nat) (st : state) : state :=
  let 'Build_state x0 x1 x2 x3 x4 x5 x6 x7 x8 x9 x10 x11 x12 x13 x14 x15 x16 x17 x18 x19 x20 _ := st in
  Build_state x0 x1 x2 x3 x4 x5 x6 x7 x8 x9 x10 x11 x12 x13 x14 x15 x16 x17 x18 x19 x20 v.

(** A microphone request is pending. *)
Definition starting (st : state) : bool := negb (Nat.eqb (pending st) 0).

Definition init : state :=
  {| isRecording := false; transcript := []; wsStatus := disconnected;
     error := None; engine := whisper; nbLocuteurs := 2; chunkMs := 2000;
     logs := []; capture := false; pcmBuf := []; nativeSR := TARGET_SR;
     wsQueue := []; wsBusy := false; chunkTmr := None; running := false;
     pending := 0%nat; jobs := []; nextJob := 0%nat; wire := [];
     dispatched := []; strayTmrs := []; strayProcs := 0%nat |}.

(** *** Logger and payload builder *)

(** [addLog]: the last 199 lines are kept and the new one is appended. *)
Definition addLog (tag : LogTag) (st : state) : state :=
  set_logs (skipn (length (logs st) - 199) (logs st) ++ [tag]) st.

(** [engineRef] and [nbLocuteursRef] mirror the [engine] and
    [nbLocuteurs] state; the payload reads them. *)
Definition buildPayload (b64 : Blob) (st : state) : Payload :=
  let eng := engine st in
  match eng with
  | vosk =>
      {| audio := b64; p_engine := eng; nb_locuteurs := nbLocuteurs st;
         modele_vosk := Some "grand"%string; config_whisper := None;
         methode_bruit := Some "false"%string;
         type_environnement := Some "2"%string |}
  | whisper =>
      {| audio := b64; p_engine := eng; nb_locuteurs := nbLocuteurs st;
         modele_vosk := None; config_whisper := Some "cpu_rapide"%string;
         methode_bruit := Some "false"%string;
         type_environnement := Some "2"%string |}
  | gladia =>
      {| audio := b64; p_engine := eng; nb_locuteurs := nbLocuteurs st;
         modele_vosk := None; config_whisper := None;
         methode_bruit := None; type_environnement := None |}
  end.

(** *** The sequential WebSocket pipeline *)

Definition find_job (i : nat) (js : list Job) : option Job :=
  find (fun j => Nat.eqb (id j) i) js.

Definition remove_job (i : nat) (js : list Job) : list Job :=
  filter (fun j => negb (Nat.eqb (id j) i)) js.

Definition open_job (i : nat) (p : Payload) (js : list Job) : list Job :=
  map (fun j => if Nat.eqb (id j) i
                then {| id := i; wav := wav j; socket := Some p |} else j) js.

(** [processQueue], up to the call of [blobToBase64]: the chunk at the
    head of the queue is taken, the busy flag is set and the
    conversion is started. *)
Definition processQueue (st : state) : state :=
  if wsBusy st || (Z.of_nat (length (wsQueue st)) =? 0) then st
  else
    match wsQueue st with
    | [] => st
    | w :: rest =>
        let st := set_wsQueue rest st in
        let st := set_wsBusy true st in
        let st := set_dispatched (dispatched st ++ [w]) st in
        let st := set_jobs (jobs st ++ [{| id := nextJob st; wav := w;
                                           socket := None |}]) st in
        set_nextJob (S (nextJob st)) st
    end.

(** The continuation of [blobToBase64] for job [i]: the payload is
    built and the WebSocket constructed; [ctor_ok = false] is the
    constructor throwing. *)
Definition on_base64 (i : nat) (ctor_ok : bool) (st : state) : state :=
  match find_job i (jobs st) with
  | Some {| wav := w; socket := None |} =>
      let payload := buildPayload w st in
      if ctor_ok then
        let st := addLog SEND st in
        set_jobs (open_job i payload (jobs st)) st
      else
        let st := addLog ERR st in
        let st := set_wsBusy false st in
        let st := set_jobs (remove_job i (jobs st)) st in
        processQueue st
  | _ => st
  end.

(** [blobToBase64] rejecting for job [i] ([reader.onerror]): the
    [then] of [processQueue] has no rejection handler, so nothing runs;
    the conversion is over and the busy flag stays as it is. *)
Definition on_base64_rejected (i : nat) (st : state) : state :=
  match find_job i (jobs st) with
  | Some {| socket := None |} => set_jobs (remove_job i (jobs st)) st
  | _ => st
  end.

(** [ws.onopen] *)
Definition on_open (i : nat) (st : state) : state :=
  match find_job i (jobs st) with
  | Some {| socket := Some payload |} => set_wire (wire st ++ [payload]) st
  | _ => st
  end.

(** The string on which the result handler calls [trim]:
    [d.transcription_complete || ""]; [None] when that value has no
    [trim] method, so that the call throws. *)
Definition text_of (tc : option Json) : option jsstring :=
  match tc with
  | None | Some JNull | Some JFalse => Some []
  | Some (JStr t) => Some t
  | Some (JNum x) =>
      if is_nan x || (x =? 0)%float then Some [] else None
  | Some JTrue | Some JObject => None
  end.

(** The updater handed to [setTranscript]. *)
Definition append_text (prev txt : jsstring) : jsstring :=
  prev
  ++ (if negb (Z.of_nat (length prev) =? 0) && negb (endsWith prev space)
      then space else [])
  ++ txt.

(** [ws.onmessage]; an exception inside the handler is swallowed by
    its [try]/[catch]. *)
Definition on_message (i : nat) (m : Message) (st : state) : state :=
  match find_job i (jobs st) with
  | Some {| socket := Some _ |} =>
      match m with
      | Unparsable => st
      | Status => addLog RECV st
      | Result tc =>
          match text_of tc with
          | None => st
          | Some t =>
              let txt := trim t in
              if negb (Z.of_nat (length txt) =? 0) then
                let st := addLog RECV st in
                set_transcript (append_text (transcript st) txt) st
              else addLog WARN st
          end
      | ServerError => addLog ERR st
      | OtherType => st
      end
  | _ => st
  end.

(** [ws.onerror] *)
Definition on_error (i : nat) (st : state) : state :=
  match find_job i (jobs st) with
  | Some {| socket := Some _ |} =>
      let st := addLog ERR st in
      let st := set_error (Some "Impossible de joindre le serveur"%string) st in
      set_wsStatus error_ st
  | _ => st
  end.

(** [ws.onclose] *)
Definition on_close (i : nat) (st : state) : state :=
  match find_job i (jobs st) with
  | Some {| socket := Some _ |} =>
      let st := addLog RECV st in
      let st := set_wsBusy false st in
      let st := set_jobs (remove_job i (jobs st)) st in
      processQueue st
  | _ => st
  end.

(** *** The chunker *)

Inductive completion := Normal | Thrown.

(** The root-mean-square energy that [flushChunk] computes. *)
Definition rms_of (merged : list float) : float :=
  PrimFloat.sqrt (fold_left (fun s v => s + v * v) merged 0
                  / of_Z (Z.of_nat (length merged)))%float.

(** The encoded chunk, [toWav(resample(merged, nativeSR), TARGET_SR)]. *)
Definition encode (merged : list float) (sr : float) : option Blob :=
  r <- resample merged sr ;; toWav r TARGET_SR_hz.

Definition flushChunk (st : state) : state * completion :=
  if Z.of_nat (length (pcmBuf st)) =? 0 then (addLog DROP st, Normal)
  else
    let merged := concat (pcmBuf st) in
    let st := set_pcmBuf [] st in
    let rms := rms_of merged in
    if (rms <? SILENCE)%float then (addLog DROP st, Normal)
    else
      match encode merged (nativeSR st) with
      | None => (st, Thrown)
      | Some w =>
          let st := addLog SEND st in
          let st := set_wsQueue (wsQueue st ++ [w]) st in
          (processQueue st, Normal)
      end.

(** [proc.onaudioprocess] *)
Definition on_audioprocess (frame : list float) (st : state) : state :=
  if running st then set_pcmBuf (pcmBuf st ++ [frame]) st else st.

(** *** Start and stop *)

(** [startRecording] up to its [await]. *)
Definition startRecording (st : state) : state :=
  let st := set_error None st in
  let st := set_wsStatus connecting st in
  let st := addLog RECV st in
  set_pending (S (pending st)) st.

(** [startRecording] after the [await]: [mic] is the sample rate of
    the audio context when the microphone was granted, [None] when
    [getUserMedia] rejected.  The refs are overwritten: a processor
    still connected and an interval still live stay so, out of reach. *)
Definition startRecording_resume (mic : option float) (st : state) : state :=
  let st := set_pending (Nat.pred (pending st)) st in
  match mic with
  | Some rate =>
      let st := set_strayProcs (if capture st then S (strayProcs st)
                                else strayProcs st) st in
      let st := set_capture true st in
      let st := set_nativeSR rate st in
      let st := addLog RECV st in
      let st := set_running true st in
      let st := set_pcmBuf [] st in
      let st := set_wsQueue [] st in
      let st := set_wsBusy false st in
      let st := set_strayTmrs (match chunkTmr st with
                               | Some ms => strayTmrs st ++ [ms]
                               | None => strayTmrs st
                               end) st in
      let st := set_chunkTmr (Some (chunkMs st)) st in
      let st := set_wsStatus ready st in
      set_isRecording true st
  | None =>
      let st := addLog ERR st in
      let st := set_error (Some "Impossible d'acceder au microphone."%string) st in
      set_wsStatus error_ st
  end.

(** The end of [stopRecording]: the processor, the stream and the
    context that the refs designate are disconnected, stopped and
    closed, and the three refs set to null. *)
Definition release (st : state) : state := set_capture false st.

Definition stopRecording (st : state) : state * completion :=
  let st := set_running false st in
  let st := set_isRecording false st in
  let st := set_wsStatus disconnected st in
  let st := set_chunkTmr None st in
  match flushChunk st with
  | (st, Thrown) => (st, Thrown)
  | (st, Normal) =>
      let st := addLog RECV st in
      (release st, Normal)
  end.

(** *** Settings, clear and save *)

(** The type [1 | 2] of the speaker buttons. *)
Inductive NbChoice := One | Two.

Definition nb_value (c : NbChoice) : Z :=
  match c with One => 1 | Two => 2 end.

(** The effect that runs when [engine] has changed. *)
Definition engine_effect (st : state) : state :=
  if Engine_eqb (engine st) gladia && (nbLocuteurs st <? 1)
  then set_nbLocuteurs 1 st else st.

Definition selectEngine (e : Engine) (st : state) : state :=
  if Engine_eqb (engine st) e then st
  else engine_effect (set_engine e st).

(** The button of one speaker is disabled for the cloud engine. *)
Definition selectNb (c : NbChoice) (st : state) : state :=
  match c with
  | One => if Engine_eqb (engine st) gladia then st
           else set_nbLocuteurs (nb_value One) st
  | Two => set_nbLocuteurs (nb_value Two) st
  end.

Definition selectChunkMs (ms : Z) (st : state) : state :=
  if existsb (Z.eqb ms) [1000; 2000; 3000] then set_chunkMs ms st else st.

Definition clickClear (st : state) : state :=
  if Z.of_nat (length (transcript st)) =? 0 then st
  else set_transcript [] st.

(** The button that empties the network log. *)
Definition clickClearLogs (st : state) : state := set_logs [] st.

(** [saveRecording] behind its button; the stored record is outside
    the model. *)
Definition clickSave (st : state) : state :=
  if (Z.of_nat (length (trim (transcript st))) =? 0) || isRecording st
  then st else set_transcript [] st.

(** The main button: disabled while [wsStatus] is "connecting",
    otherwise stop or start. *)
Definition clickMain (st : state) : state :=
  if WsStatus_eqb (wsStatus st) connecting then st
  else if isRecording st then fst (stopRecording st)
  else startRecording st.

(** *** Events *)

Inductive Event :=
| ClickMain
| UserMedia (mic : option float)
| AudioProcess (frame : list float)
| ChunkTimer
| Base64Loaded (i : nat) (ctor_ok : bool)
| Base64Failed (i : nat)
| WsOpen (i : nat)
| WsMessage (i : nat) (m : Message)
| WsError (i : nat)
| WsClose (i : nat)
| SelectEngine (e : Engine)
| SelectNb (c : NbChoice)
| SelectChunkMs (ms : Z)
| ClickClear
| ClickClearLogs
| ClickSave.

(** One turn of the event loop.  An event whose source no longer
    exists (a timer that was cleared, a processor that was
    disconnected, a socket that is closed) does nothing.  Every live
    interval calls [flushChunk] and every connected processor the same
    [onaudioprocess] handler, so a tick or a frame need not say which
    one it comes from. *)
Definition step (st : state) (ev : Event) : state :=
  match ev with
  | ClickMain => clickMain st
  | UserMedia mic => if starting st then startRecording_resume mic st else st
  | AudioProcess f =>
      if capture st || negb (Nat.eqb (strayProcs st) 0)
      then on_audioprocess f st else st
  | ChunkTimer =>
      match chunkTmr st, strayTmrs st with
      | None, [] => st
      | _, _ => fst (flushChunk st)
      end
  | Base64Loaded i ok => on_base64 i ok st
  | Base64Failed i => on_base64_rejected i st
  | WsOpen i => on_open i st
  | WsMessage i m => on_message i m st
  | WsError i => on_error i st
  | WsClose i => on_close i st
  | SelectEngine e => selectEngine e st
  | SelectNb c => selectNb c st
  | SelectChunkMs ms => selectChunkMs ms st
  | ClickClear => clickClear st
  | ClickClearLogs => clickClearLogs st
  | ClickSave => clickSave st
  end.

Definition run (st : state) (evs : list Event) : state :=
  fold_left step evs st.

(** The states the page can be in. *)
Definition reachable (st : state) : Prop := exists evs, st = run init evs.

End Page.

Import Page.

(** ** The history page: stored recordings

    [localStorage] holds, under the key "medvoice_recordings", the JSON
    text of an array of recordings; it is modelled by the array that
    text denotes ([None] when the key is absent).  The page state holds
    its own array. *)

Module History.

Record Recording := {
  id : string; text : string; date : string;
  nom : string; prenom : string; symptomes : string
}.

Record state := {
  medvoice_recordings : option (list Recording);
  recordings : list Recording;
  selectedRecording : option Recording
}.

Definition init (stored : option (list Recording)) : state :=
  {| medvoice_recordings := stored; recordings := [];
     selectedRecording := None |}.

(** The storage effect of [saveRecording] on the recognition page: the
    new recording is pushed at the end of the stored array. *)
Definition push (r : Recording) (st : state) : state :=
  {| medvoice_recordings :=
       Some (match medvoice_recordings st with Some l => l | None => [] end
             ++ [r]);
     recordings := recordings st;
     selectedRecording := selectedRecording st |}.

(** [parsed.reverse()] reverses the freshly parsed array, which becomes
    the page state; the stored text is not touched. *)
Definition loadRecordings (st : state) : state :=
  match medvoice_recordings st with
  | Some parsed =>
      {| medvoice_recordings := medvoice_recordings st;
         recordings := rev parsed;
         selectedRecording := selectedRecording st |}
  | None => st
  end.

(** [updated.reverse()] reverses [updated] in place and returns that
    same array: what is serialised and what [setRecordings] receives on
    the next line are both the reversed array. *)
Definition deleteRecording (i : string) (confirmed : bool) (st : state) : state :=
  if negb confirmed then st
  else
    let updated := filter (fun r => negb (String.eqb (id r) i)) (recordings st) in
    let updated := rev updated in
    {| medvoice_recordings := Some updated;
       recordings := updated;
       selectedRecording :=
         match selectedRecording st with
         | Some r => if String.eqb (id r) i then None else Some r
         | None => None
         end |}.

End History.

(** ** The forms page: validation and storage of the medical form *)

Module Forms.

(** A field of the schema; its label and semantic hint, which only
    feed the display and the extraction request, are left out. *)
Record Field := { name : string; type : string; required : bool }.

Definition MEDICAL_FORM : list Field :=
  [ {| name := "nom"; type := "text"; required := true |};
    {| name := "prenom"; type := "text"; required := true |};
    {| name := "age"; type := "number"; required := false |};
    {| name := "sexe"; type := "text"; required := false |};
    {| name := "symptomes"; type := "textarea"; required := true |};
    {| name := "temperature"; type := "number"; required := false |};
    {| name := "tension"; type := "text"; required := false |};
    {| name := "antecedents"; type := "textarea"; required := false |};
    {| name := "traitement"; type := "textarea"; required := false |};
    {| name := "diagnostic"; type := "textarea"; required := false |} ].

(** [Record<string, string>]: the first binding of a key is its value. *)
Definition FormData := list (string * jsstring).

Fixpoint get (d : FormData) (k : string) : option jsstring :=
  match d with
  | [] => None
  | (k', v) :: rest => if String.eqb k' k then Some v else get rest k
  end.

Record SavedRecording := { id : string; text : jsstring }.

(** A stored form; its [id] and [date], read from the clock, are left
    out. *)
Record SavedForm := { data : FormData; form_transcript : jsstring }.

Inductive Error :=
| MissingFields (names : list string)
| NoTranscript
| ExtractionFailed
| ExtractionThrew.

(** What the extraction request gave; the data of a success is taken
    to hold strings, as its type says. *)
Inductive Outcome :=
| Success (d : FormData)
| Failure
| Threw.

Record state := {
  transcript : jsstring;
  isExtracting : bool;
  error : option Error;
  savedRecordings : list SavedRecording;
  selectedRecordingId : string;
  formData : FormData;
  medvoice_forms : list SavedForm
}.

Definition init (recs : list SavedRecording) (forms : list SavedForm) : state :=
  {| transcript := []; isExtracting := false; error := None;
     savedRecordings := recs; selectedRecordingId := EmptyString;
     formData := []; medvoice_forms := forms |}.

Definition loadExistingRecording (recordingId : string) (st : state) : state :=
  match find (fun r => String.eqb (id r) recordingId) (savedRecordings st) with
  | Some recording =>
      {| transcript := text recording; isExtracting := isExtracting st;
         error := None; savedRecordings := savedRecordings st;
         selectedRecordingId := recordingId; formData := [];
         medvoice_forms := medvoice_forms st |}
  | None => st
  end.

Definition blank (v : option jsstring) : bool :=
  match v with
  | Some t => (Z.of_nat (length (trim t)) =? 0)
  | None => true
  end.

(** [autoFillForm] up to its [await]. *)
Definition autoFillForm (st : state) : state :=
  if blank (Some (transcript st))
  then {| transcript := transcript st; isExtracting := isExtracting st;
          error := Some NoTranscript; savedRecordings := savedRecordings st;
          selectedRecordingId := selectedRecordingId st;
          formData := formData st; medvoice_forms := medvoice_forms st |}
  else {| transcript := transcript st; isExtracting := true;
          error := None; savedRecordings := savedRecordings st;
          selectedRecordingId := selectedRecordingId st;
          formData := formData st; medvoice_forms := medvoice_forms st |}.

(** [autoFillForm] after its [await], with what the request gave. *)
Definition autoFillForm_resume (o : Outcome) (st : state) : state :=
  {| transcript := transcript st; isExtracting := false;
     error := match o with
              | Success _ => None
              | Failure => Some ExtractionFailed
              | Threw => Some ExtractionThrew
              end;
     savedRecordings := savedRecordings st;
     selectedRecordingId := selectedRecordingId st;
     formData := match o with Success d => d | _ => formData st end;
     medvoice_forms := medvoice_forms st |}.

Definition handleFieldChange (fieldName : string) (value : jsstring) (st : state) : state :=
  {| transcript := transcript st; isExtracting := isExtracting st;
     error := error st; savedRecordings := savedRecordings st;
     selectedRecordingId := selectedRecordingId st;
     formData := (fieldName, value) :: formData st;
     medvoice_forms := medvoice_forms st |}.

Definition saveForm (st : state) : state :=
  let requiredFields := filter required MEDICAL_FORM in
  let missingFields :=
    filter (fun f => blank (get (formData st) (name f))) requiredFields in
  if (0 <? Z.of_nat (length missingFields))
  then {| transcript := transcript st; isExtracting := isExtracting st;
          error := Some (MissingFields (map name missingFields));
          savedRecordings := savedRecordings st;
          selectedRecordingId := selectedRecordingId st;
          formData := formData st; medvoice_forms := medvoice_forms st |}
  else {| transcript := []; isExtracting := isExtracting st;
          error := error st; savedRecordings := savedRecordings st;
          selectedRecordingId := EmptyString; formData := [];
          medvoice_forms :=
            medvoice_forms st
            ++ [{| data := formData st; form_transcript := transcript st |}] |}.

(** What the user and the extraction request do.  The fill button is
    disabled while the transcript is empty or a request is pending, the
    save button while the form holds no key. *)
Inductive Event :=
| Choose (recordingId : string)
| ClickFill
| Extracted (o : Outcome)
| Change (fieldName : string) (value : jsstring)
| ClickSave.

Definition step (st : state) (ev : Event) : state :=
  match ev with
  | Choose i => loadExistingRecording i st
  | ClickFill =>
      if (Z.of_nat (length (transcript st)) =? 0) || isExtracting st then st
      else autoFillForm st
  | Extracted o => if isExtracting st then autoFillForm_resume o st else st
  | Change k v => handleFieldChange k v st
  | ClickSave =>
      match formData st with [] => st | _ :: _ => saveForm st end
  end.

Definition run (st : state) (evs : list Event) : state := fold_left step evs st.

End Forms.

(** ** The stopwatch of the recognition page *)

Module Clock.

(** [x.toString()] for a double that holds an integer of [0, 10^21):
    its decimal digits.  Other numbers, which the stopwatch never
    holds, are left out ([None]). *)
Definition toString (x : float) : option string :=
  match toZ_exact x with
  | Some z =>
      if (0 <=? z) && (z <? 10 ^ 21)
      then Some (DecimalString.NilEmpty.string_of_uint (N.to_uint (Z.to_N z)))
      else None
  | None => None
  end.

(** [t.padStart(len, c)] for a one-character filler. *)
Definition padStart (t : string) (len : nat) (c : ascii) : string :=
  (string_of_list_ascii (repeat c (len - String.length t)) ++ t)%string.

(** [x % y] on doubles that hold integers, [x >= 0] and [y > 0]: the
    remainder is exact. *)
Definition rem (x y : float) : option float :=
  match toZ_exact x, toZ_exact y with
  | Some a, Some b =>
      if (0 <=? a) && (0 <? b) then Some (of_Z (Z.rem a b)) else None
  | _, _ => None
  end.

Definition formatTime (s : float) : option string :=
  m <- toString (Math_floor (s / 60)) ;;
  r <- rem s 60 ;;
  t <- toString r ;;
  Some (padStart m 2 "0" ++ ":" ++ padStart t 2 "0")%string.

End Clock.

(** * Notions used in the statements *)

(** The bytes [toWav] writes for one sample. *)
Definition pcm_bytes (x : float) : list Z :=
  le_bytes 2 (ToInt16 (scaled x) mod 65536).

(** The 44 bytes of the header, for [n] samples at rate [sr]. *)
Definition wav_header (n sr : Z) : list Z :=
  [82; 73; 70; 70] ++ le_bytes 4 ((36 + n * 2) mod 4294967296)
  ++ [87; 65; 86; 69] ++ [102; 109; 116; 32]
  ++ le_bytes 4 16 ++ le_bytes 2 1 ++ le_bytes 2 1
  ++ le_bytes 4 (sr mod 4294967296) ++ le_bytes 4 ((sr * 2) mod 4294967296)
  ++ le_bytes 2 2 ++ le_bytes 2 16
  ++ [100; 97; 116; 97] ++ le_bytes 4 ((n * 2) mod 4294967296).

(** A native rate the resampler can always serve: the target rate, or
    at least an eighth of it (2000 Hz). *)
Definition rate_supported (sr : float) : bool :=
  ((sr =? TARGET_SR) || (0.125 <=? sr / TARGET_SR))%float.

(** The chunks in the order of their creation: those already taken from
    the queue, then those still waiting in it. *)
Definition history (st : state) : list Blob := dispatched st ++ wsQueue st.

(** A state whose capture buffer the encoder can always serve. *)
Definition encodable (st : state) : Prop :=
  rate_supported (nativeSR st) = true
  /\ Z.of_nat (length (concat (pcmBuf st))) < 2 ^ 48.

(** A recording at 16 kHz with one audible frame captured. *)
Definition st_voiced : state :=
  set_pcmBuf [[0.5; 0.5]%float]
    (run init [ClickMain; UserMedia (Some 16000%float)]).

(** The state in which [stopRecording] calls [flushChunk]. *)
Definition stopping (st : state) : state :=
  set_chunkTmr None
    (set_wsStatus disconnected (set_isRecording false (set_running false st))).

(** A recording with one chunk in flight and a new frame captured. *)
Definition st_in_flight : state :=
  run init [ClickMain; UserMedia (Some 16000%float);
            AudioProcess [0.5; 0.5]%float; ChunkTimer;
            AudioProcess [0.25; 0.5]%float].

(** The speaker count is one of the two values of the buttons. *)
Definition nb_ok (st : state) : Prop := 1 <= nbLocuteurs st <= 2.

(** Every payload built so far carries a speaker count of 1 or 2. *)
Definition payloads_ok (st : state) : Prop :=
  (forall p, In p (wire st) -> 1 <= nb_locuteurs p <= 2)
  /\ (forall j p, In j (jobs st) -> socket j = Some p -> 1 <= nb_locuteurs p <= 2).

(** The rule of the aggregator in the words of the specification: the
    text goes after the transcript, behind one space unless the
    transcript is empty or ends in whitespace. *)
Definition ends_in_white (t : jsstring) : bool :=
  match last_unit t with Some c => is_white c | None => false end.

Definition spec_append (prev txt : jsstring) : jsstring :=
  if (Z.of_nat (length prev) =? 0) || ends_in_white prev
  then prev ++ txt else prev ++ space ++ txt.

(** The transcript never ends in whitespace. *)
Definition transcript_ok (st : state) : Prop :=
  forall c, last_unit (transcript st) = Some c -> is_white c = false.

(** A transcript of one word with a socket open. *)
Definition st_said_bonjour : state :=
  run init [ClickMain; UserMedia (Some 16000%float);
            AudioProcess [0.5; 0.5]%float; ChunkTimer; Base64Loaded 0 true;
            WsOpen 0;
            WsMessage 0 (Result (Some (JStr (of_string " bonjour "))))].

(** Job identifiers are handed out in increasing order. *)
Definition ids_fresh (st : state) : Prop :=
  forall j, In j (jobs st) -> (id j < nextJob st)%nat.

(** The part of the state that makes up the recording. *)
Definition same_recording (st st' : state) : Prop :=
  isRecording st' = isRecording st /\ running st' = running st
  /\ chunkTmr st' = chunkTmr st /\ capture st' = capture st
  /\ pcmBuf st' = pcmBuf st.

(** What the end of a send does: the job is removed, the busy flag is
    cleared and [processQueue] takes the next chunk, if there is one. *)
Definition next_dispatched (i : nat) (st st' : state) : Prop :=
  match wsQueue st with
  | [] => wsBusy st' = false /\ wsQueue st' = []
          /\ jobs st' = remove_job i (jobs st)
          /\ dispatched st' = dispatched st
  | w :: rest =>
      wsBusy st' = true /\ wsQueue st' = rest
      /\ jobs st' = remove_job i (jobs st)
                    ++ [{| id := nextJob st; wav := w; socket := None |}]
      /\ dispatched st' = dispatched st ++ [w]
  end.

(** A recording with the first chunk on an open socket and a second
    chunk waiting in the queue. *)
Definition st_queued : state :=
  run init [ClickMain; UserMedia (Some 16000%float);
            AudioProcess [0.5; 0.5]%float; ChunkTimer; Base64Loaded 0 true;
            WsOpen 0; AudioProcess [0.25; -0.5]%float; ChunkTimer].

(** Stop while a chunk is on an open socket, then start again at once. *)
Definition restart_trace : list Event :=
  [ClickMain; UserMedia (Some 16000%float);
   AudioProcess [0.5; 0.5]%float; ChunkTimer; Base64Loaded 0 true; WsOpen 0;
   ClickMain;
   ClickMain; UserMedia (Some 16000%float);
   AudioProcess [0.25; -0.5]%float; ChunkTimer; Base64Loaded 1 true; WsOpen 1].

(** A stop with a chunk on an open socket, a start, an error on that
    socket while the microphone request is pending, a second start,
    both requests granted, and a stop. *)
Definition double_start_trace : list Event :=
  [ClickMain; UserMedia (Some 16000%float);
   AudioProcess [0.5; 0.5]%float; ChunkTimer; Base64Loaded 0 true; WsOpen 0;
   ClickMain; ClickMain; WsError 0; ClickMain;
   UserMedia (Some 16000%float); UserMedia (Some 16000%float); ClickMain].



(** ** Notions used in the further properties *)

(** No chunk waits without a send in flight to wake the queue. *)
Definition never_stranded (st : state) : Prop :=
  (wsQueue st <> [] -> wsBusy st = true)
  /\ (wsBusy st = true -> jobs st <> []).


(** The event that starts a new recording. *)
Definition grants_microphone (ev : Event) : bool :=
  match ev with UserMedia _ => true | _ => false end.



(** The protocol of /ws/transcribe, as the header of the page states
    it: the fields each engine receives besides [audio], [engine] and
    [nb_locuteurs]. *)
Definition conforms (p : Payload) : Prop :=
  match p_engine p with
  | vosk =>
      modele_vosk p = Some "grand"%string /\ config_whisper p = None
      /\ methode_bruit p = Some "false"%string
      /\ type_environnement p = Some "2"%string
  | whisper =>
      modele_vosk p = None /\ config_whisper p = Some "cpu_rapide"%string
      /\ methode_bruit p = Some "false"%string
      /\ type_environnement p = Some "2"%string
  | gladia =>
      modele_vosk p = None /\ config_whisper p = None
      /\ methode_bruit p = None /\ type_environnement p = None
  end.

(** Every message sent, and every message a job holds, conforms and
    carries a chunk that was taken from the queue. *)
Definition wire_ok (st : state) : Prop :=
  (forall p, In p (wire st) -> conforms p /\ In (audio p) (dispatched st))
  /\ (forall j, In j (jobs st) -> In (wav j) (dispatched st))
  /\ (forall j p, In j (jobs st) -> socket j = Some p ->
                  conforms p /\ In (audio p) (dispatched st)).

(** A vosk recording whose first chunk has been sent. *)
Definition st_vosk_sent : state :=
  run init [SelectEngine vosk; ClickMain; UserMedia (Some 16000%float);
            AudioProcess [0.5; 0.5]%float; ChunkTimer; Base64Loaded 0 true;
            WsOpen 0].

(** The network log within its bound. *)
Definition log_bounded (st : state) : Prop := (length (logs st) <= 200)%nat.

(** The transcript does not start with whitespace. *)
Definition head_ok (st : state) : Prop :=
  forall c r, transcript st = c :: r -> is_white c = false.

(** A stopped page whose transcript is one word. *)
Definition st_bonjour_stopped : state :=
  fst (stopRecording st_said_bonjour).

(** Texts joined by single spaces, from the left. *)
Definition join_one (acc t : jsstring) : jsstring :=
  match acc with [] => t | _ :: _ => acc ++ space ++ t end.

Definition join_texts (l : list jsstring) : jsstring := fold_left join_one l [].

Definition is_text (t : jsstring) : Prop := t <> [] /\ trim t = t.

Definition joined (st : state) : Prop :=
  exists l, Forall is_text l /\ transcript st = join_texts l.

(** Three results, the second one blank. *)
Definition st_three_results : state :=
  run st_said_bonjour
    [WsMessage 0 (Result (Some (JStr (of_string "   "))));
     WsMessage 0 (Result None);
     WsMessage 0 (Result (Some (JStr (of_string "docteur "))))].

(** The unsigned integer a reader finds in little-endian bytes, the
    [len]-byte field at offset [off] of a file, and the two's-complement
    reading of a 16-bit field. *)
Definition le_value (bs : list Z) : Z :=
  fold_right (fun b acc => b + 256 * acc) 0 bs.

Definition field (b : buffer) (off len : nat) : Z :=
  le_value (firstn len (skipn off b)).

Definition as_int16 (u : Z) : Z := if u <? 32768 then u else u - 65536.

Definition is_byte (b : Z) : Prop := 0 <= b < 256.

(** A form whose three required fields hold text that is not blank. *)
Definition complete (d : Forms.FormData) : Prop :=
  Forms.blank (Forms.get d "nom") = false
  /\ Forms.blank (Forms.get d "prenom") = false
  /\ Forms.blank (Forms.get d "symptomes") = false.

(** Two decimal digits. *)
Definition two_digits (d : Z) : string :=
  String (ascii_of_nat (48 + Z.to_nat (d / 10)))
    (String (ascii_of_nat (48 + Z.to_nat (d mod 10))) EmptyString).

Definition mm_ss (k : Z) : string :=
  (two_digits (k / 60) ++ ":" ++ two_digits (k mod 60))%string.

(** The number of seconds a reader takes from a text "MM:SS". *)
Definition digit_at (t : string) (i : nat) : Z :=
  match String.get i t with
  | Some c => Z.of_nat (nat_of_ascii c) - 48
  | None => 0
  end.

Definition seconds_of (t : string) : Z :=
  (10 * digit_at t 0 + digit_at t 1) * 60 + 10 * digit_at t 3 + digit_at t 4.

Definition shows_mm_ss (k : Z) : bool :=
  match Clock.formatTime (of_Z k) with
  | Some t => String.eqb t (mm_ss k) && (seconds_of t =? k)
  | None => false
  end.

(** The event of [blobToBase64] rejecting. *)
Definition read_rejected (ev : Event) : bool :=
  match ev with Base64Failed _ => true | _ => false end.





(** The busy flag is set and nothing is in flight. *)
Definition stalled (st : state) : Prop := wsBusy st = true /\ jobs st = [].

(** A recording whose first chunk cannot be read, and a second chunk. *)
Definition rejected_read_trace : list Event :=
  [ClickMain; UserMedia (Some 16000%float);
   AudioProcess [0.5; 0.5]%float; ChunkTimer; Base64Failed 0;
   AudioProcess [0.25; -0.5]%float; ChunkTimer].

(** The same recording, the WebSocket constructor throwing instead. *)
Definition constructor_throws_trace : list Event :=
  [ClickMain; UserMedia (Some 16000%float);
   AudioProcess [0.5; 0.5]%float; ChunkTimer; Base64Loaded 0 false;
   AudioProcess [0.25; -0.5]%float; ChunkTimer].

(** * Facts about binary64 arithmetic

    The specification functions of the Standard Library ([SFdiv],
    [binary_round_aux], ...) are unfolded on the operands the audio
    utilities give them. *)

Section Binary64.

Lemma digits2_size p : digits2_pos p = Pos.size p.
Proof. induction p; simpl; congruence. Qed.

Lemma digits_gt p : Zpos p < 2 ^ Zpos (digits2_pos p).
Proof.
  rewrite digits2_size. pose proof (Pos.size_gt p) as H.
  rewrite <- Pos2Z.inj_pow. lia.
Qed.

Lemma digits_le p : 2 ^ (Zpos (digits2_pos p) - 1) <= Zpos p.
Proof.
  rewrite digits2_size. pose proof (Pos.size_le p) as H.
  assert (2 ^ Zpos (Pos.size p) <= 2 * Zpos p).
  { rewrite <- Pos2Z.inj_pow. lia. }
  replace (2 ^ Zpos (Pos.size p)) with (2 * 2 ^ (Zpos (Pos.size p) - 1)) in H0.
  lia.
  rewrite <- Z.pow_succ_r by lia. f_equal. lia.
Qed.

Lemma digits_upper p d : 0 <= d -> Zpos p < 2 ^ d -> Zpos (digits2_pos p) <= d.
Proof.
  intros Hd H. pose proof (digits_le p) as L.
  destruct (Z_le_gt_dec (Zpos (digits2_pos p)) d) as [|G]; [assumption|].
  assert (2 ^ d <= 2 ^ (Zpos (digits2_pos p) - 1)) by (apply Z.pow_le_mono_r; lia).
  lia.
Qed.

Lemma digits_lower p d : 2 ^ (d - 1) <= Zpos p -> d <= Zpos (digits2_pos p).
Proof.
  intros H. pose proof (digits_gt p) as L.
  destruct (Z_le_gt_dec d (Zpos (digits2_pos p))) as [|G]; [assumption|].
  assert (2 ^ Zpos (digits2_pos p) <= 2 ^ (d - 1)) by (apply Z.pow_le_mono_r; lia).
  lia.
Qed.

Lemma iter_xO_val p k : Zpos (Pos.iter xO p k) = Zpos p * 2 ^ Zpos k.
Proof.
  revert p. induction k using Pos.peano_ind; intros p.
  - simpl. lia.
  - rewrite Pos.iter_succ. rewrite Pos2Z.inj_xO, IHk.
    rewrite Pos2Z.inj_succ, Z.pow_succ_r by lia. lia.
Qed.

Lemma iter_xO_digits p k :
  Zpos (digits2_pos (Pos.iter xO p k)) = Zpos (digits2_pos p) + Zpos k.
Proof.
  revert p. induction k using Pos.peano_ind; intros p.
  - simpl. lia.
  - rewrite Pos.iter_succ. simpl digits2_pos. rewrite Pos2Z.inj_succ, IHk. lia.
Qed.

Lemma round_aux_canonical s m e :
  fexp prec emax (Zpos (digits2_pos m) + e) = e -> e <= 971 ->
  binary_round_aux prec emax s (Zpos m) e loc_Exact = S754_finite s m e.
Proof.
  intros Hc He.
  unfold binary_round_aux, shr_fexp.
  change (Zdigits2 (Zpos m)) with (Zpos (digits2_pos m)).
  rewrite Hc, Z.sub_diag.
  cbn [shr shr_record_of_loc loc_of_shr_record shr_m round_nearest_even].
  change (Zdigits2 (Zpos m)) with (Zpos (digits2_pos m)).
  rewrite Hc, Z.sub_diag.
  cbn [shr shr_record_of_loc loc_of_shr_record shr_m round_nearest_even].
  replace (e <=? emax - prec) with true; [reflexivity|].
  symmetry. apply Z.leb_le. unfold emax, prec. lia.
Qed.

(** Conversion of an integer below 2^53 to a double is exact. *)
Lemma normalize_exact (p : positive) :
  Zpos p < 2 ^ 53 ->
  exists m e, binary_normalize prec emax (Zpos p) 0 false = S754_finite false m e
    /\ e <= 0 /\ Zpos m = Zpos p * 2 ^ (- e) /\ Zpos (digits2_pos m) = 53 /\ e = Zpos (digits2_pos p) - 53.
Proof.
  intros Hp.
  pose proof (digits_upper p 53 ltac:(lia) Hp) as Hd.
  unfold binary_normalize, binary_round.
  set (d := digits2_pos p) in *.
  assert (Hf : fexp prec emax (Zpos d + 0) = Zpos d - 53).
  { unfold fexp, SpecFloat.emin, prec, emax. lia. }
  rewrite Hf. unfold shl_align.
  destruct (Zpos d - 53 - 0) eqn:E.
  - (* d = 53 *)
    assert (Zpos d = 53) by lia.
    exists p, 0. rewrite round_aux_canonical.
    + repeat split; lia.
    + fold d. rewrite Hf. lia.
    + lia.
  - lia.
  - set (mz := Pos.iter xO p p0).
    assert (Hmz : Zpos (digits2_pos mz) = 53).
    { unfold mz. rewrite iter_xO_digits. fold d. lia. }
    exists mz, (Zpos d - 53).
    rewrite round_aux_canonical.
    + repeat split; try lia.
      unfold mz. rewrite iter_xO_val. f_equal. f_equal. lia.
    + rewrite Hmz. unfold fexp, SpecFloat.emin, prec, emax. lia.
    + lia.
Qed.

Lemma Prim2SF_of_Z_zero : Prim2SF (of_Z 0) = S754_zero false.
Proof. reflexivity. Qed.

Lemma Prim2SF_of_Z_pos (p : positive) :
  Zpos p < 2 ^ 53 ->
  exists m e, Prim2SF (of_Z (Zpos p)) = S754_finite false m e
    /\ e <= 0 /\ Zpos m = Zpos p * 2 ^ (- e) /\ Zpos (digits2_pos m) = 53 /\ e = Zpos (digits2_pos p) - 53.
Proof.
  intros Hp. unfold of_Z.
  replace (Zpos p <? 0) with false by (symmetry; apply Z.ltb_ge; lia).
  rewrite of_uint63_spec, Uint63.of_Z_spec.
  rewrite Z.mod_small.
  - apply normalize_exact; assumption.
  - split; [lia|]. eapply Z.lt_trans; [exact Hp|]. reflexivity.
Qed.

Lemma ToIndex_of_Z n : 0 <= n < 2 ^ 53 -> ToIndex (of_Z n) = Some n.
Proof.
  intros [H0 H1]. destruct n as [|p|p]; [reflexivity| |lia].
  destruct (Prim2SF_of_Z_pos p H1) as (m & e & Hx & He & Hm & Hd & _).
  unfold ToIndex. rewrite Hx. unfold signed.
  assert (Hq : (if 0 <=? e then Zpos m * 2 ^ e else Z.quot (Zpos m) (2 ^ (- e))) = Zpos p).
  { destruct (0 <=? e) eqn:E.
    - apply Z.leb_le in E. assert (e = 0) by lia. subst e. simpl in Hm. lia.
    - rewrite Hm. rewrite Z.quot_mul; [reflexivity|]. apply Z.pow_nonzero; lia. }
  rewrite Hq.
  replace ((0 <=? Zpos p) && (Zpos p <=? 2 ^ 53 - 1)) with true; [reflexivity|].
  symmetry. apply andb_true_iff. split; apply Z.leb_le; lia.
Qed.

(** Division by two is exact. *)
Lemma div_eucl_pair a b : Z.div_eucl a b = (a / b, a mod b).
Proof. unfold Z.div, Z.modulo. destruct (Z.div_eucl a b); reflexivity. Qed.

Lemma SFdiv_two m1 e1 :
  Zpos (digits2_pos m1) = 53 -> -52 <= e1 <= 0 ->
  SFdiv prec emax (S754_finite false m1 e1) (Prim2SF 2) = S754_finite false m1 (e1 - 1).
Proof.
  intros Hd He.
  change (Prim2SF 2) with (S754_finite false 4503599627370496 (-51)).
  unfold SFdiv, SFdiv_core_binary.
  change (Zdigits2 (Zpos m1)) with (Zpos (digits2_pos m1)). rewrite Hd.
  change (Zdigits2 4503599627370496) with 53.
  assert (He' : Z.min (fexp prec emax (53 + e1 - (53 + -51))) (e1 - -51) = e1 - 2).
  { unfold fexp, SpecFloat.emin, prec, emax. lia. }
  rewrite He'.
  replace (e1 - -51 - (e1 - 2)) with 53 by lia.
  rewrite div_eucl_pair.
  assert (Hs : Z.shiftl (Zpos m1) 53 = Zpos (m1~0) * 4503599627370496).
  { rewrite Z.shiftl_mul_pow2 by lia. change (2 ^ 53) with (2 * 4503599627370496). lia. }
  rewrite Hs, Z.div_mul, Z.mod_mul by lia.
  change (new_location 4503599627370496 0) with loc_Exact.
  unfold binary_round_aux, shr_fexp.
  change (Zdigits2 (Zpos m1~0)) with (Zpos (Pos.succ (digits2_pos m1))).
  rewrite Pos2Z.inj_succ, Hd.
  replace (fexp prec emax (Z.succ 53 + (e1 - 2)) - (e1 - 2)) with 1
    by (unfold fexp, SpecFloat.emin, prec, emax; lia).
  cbn [shr shr_record_of_loc iter_pos shr_1 loc_of_shr_record shr_m round_nearest_even orb xorb].
  change (Zdigits2 (Zpos m1)) with (Zpos (digits2_pos m1)). rewrite Hd.
  replace (fexp prec emax (53 + (e1 - 2 + 1)) - (e1 - 2 + 1)) with 0
    by (unfold fexp, SpecFloat.emin, prec, emax; lia).
  cbn [shr shr_m].
  replace (e1 - 2 + 1 <=? emax - prec) with true
    by (symmetry; apply Z.leb_le; unfold emax, prec; lia).
  f_equal. lia.
Qed.

Lemma half_round (n : Z) :
  0 <= n < 2 ^ 53 -> ToIndex (Math_round (of_Z n / 2)) = Some ((n + 1) / 2).
Proof.
  intros [H0 H1]. destruct n as [|p|p]; [reflexivity| |lia].
  destruct (Prim2SF_of_Z_pos p H1) as (m & e & Hx & He & Hm & Hd & Hde).
  assert (Hx2 : Prim2SF (of_Z (Zpos p) / 2) = S754_finite false m (e - 1)).
  { rewrite FloatAxioms.div_spec. unfold SF64div. rewrite Hx. apply SFdiv_two; [assumption|].
    pose proof (Pos2Z.is_pos (digits2_pos p)). lia. }
  unfold Math_round. rewrite Hx2.
  replace (0 <=? e - 1) with false by (symmetry; apply Z.leb_gt; lia).
  unfold signed. rewrite andb_false_r.
  assert (Hr : (2 * Zpos m + 2 ^ (- (e - 1))) / 2 ^ (- (e - 1) + 1) = (Zpos p + 1) / 2).
  { rewrite Hm.
    replace (- (e - 1) + 1) with (Z.succ (Z.succ (- e))) by lia.
    replace (- (e - 1)) with (Z.succ (- e)) by lia.
    rewrite !Z.pow_succ_r by lia.
    replace (2 * (Zpos p * 2 ^ (- e)) + 2 * 2 ^ (- e)) with ((Zpos p + 1) * 2 * 2 ^ (- e)) by lia.
    replace (2 * (2 * 2 ^ (- e))) with (2 * 2 * 2 ^ (- e)) by lia.
    assert (0 < 2 ^ (- e)) by (apply Z.pow_pos_nonneg; lia).
    rewrite Z.div_mul_cancel_r by lia.
    rewrite Z.div_mul_cancel_r by lia. reflexivity. }
  rewrite Hr. apply ToIndex_of_Z.
  split; [apply Z.div_pos; lia|].
  apply Z.div_lt_upper_bound; lia.
Qed.

(** The exponent that rounding produces is bounded by the size of the
    mantissa it is given. *)
Lemma iter_pos_inv {A : Type} (f : A -> A) (P : A -> Prop) :
  (forall x, P x -> P (f x)) -> forall n x, P x -> P (iter_pos f n x).
Proof.
  intros Hf. induction n as [n IH|n IH|]; intros x Hx; simpl; auto.
Qed.

Lemma shr_1_bound B mrs :
  0 <= shr_m mrs <= B -> 0 <= shr_m (shr_1 mrs) <= B.
Proof.
  destruct mrs as [m r t]. simpl. intros H.
  destruct m as [|[p|p|]|[p|p|]]; simpl; lia.
Qed.

Lemma shr_bound B mrs e n :
  0 <= shr_m mrs <= B ->
  0 <= shr_m (fst (shr mrs e n)) <= B /\ snd (shr mrs e n) = Z.max e (e + n).
Proof.
  intros H. destruct n as [|p|p]; simpl.
  - split; [assumption|lia].
  - split; [|lia]. apply (iter_pos_inv shr_1 (fun x => 0 <= shr_m x <= B)); [|assumption].
    intros x Hx. apply shr_1_bound; assumption.
  - split; [assumption|lia].
Qed.

Lemma shr_record_m m l : shr_m (shr_record_of_loc m l) = m.
Proof. destruct l as [|[]]; reflexivity. Qed.

Lemma round_even_bound m l : 0 <= m -> 0 <= round_nearest_even m l <= m + 1.
Proof.
  intros H. destruct l as [|[]]; simpl; try lia.
  destruct (Z.even m); lia.
Qed.

Lemma Zdigits2_upper z d : 0 <= d -> 0 <= z < 2 ^ d -> Zdigits2 z <= d.
Proof.
  intros Hd [H0 H1]. destruct z as [|p|p]; simpl; [lia| |lia].
  apply digits_upper; assumption.
Qed.

Lemma round_aux_bound s q e l :
  0 <= q < 2 ^ 54 -> e <= -3 ->
  binary_round_aux prec emax s q e l = S754_zero s
  \/ exists m e', binary_round_aux prec emax s q e l = S754_finite s m e' /\ e' <= 0.
Proof.
  intros Hq He. unfold binary_round_aux, shr_fexp.
  pose proof (Zdigits2_upper q 54 ltac:(lia) Hq) as Hdq.
  set (n1 := fexp prec emax (Zdigits2 q + e) - e).
  assert (Hn1 : Z.max e (e + n1) <= -2).
  { unfold n1, fexp, SpecFloat.emin, prec, emax. lia. }
  pose proof (shr_bound q (shr_record_of_loc q l) e n1) as H1.
  rewrite shr_record_m in H1. specialize (H1 ltac:(lia)).
  destruct (shr (shr_record_of_loc q l) e n1) as [mrs1 e1]. simpl in H1.
  destruct H1 as [Hm1 He1].
  set (mr := round_nearest_even (shr_m mrs1) (loc_of_shr_record mrs1)).
  assert (Hmr : 0 <= mr <= q + 1) by (pose proof (round_even_bound (shr_m mrs1) (loc_of_shr_record mrs1)); fold mr in H; lia).
  assert (Hdr : Zdigits2 mr <= 55) by (apply Zdigits2_upper; lia).
  set (n2 := fexp prec emax (Zdigits2 mr + e1) - e1).
  assert (Hn2 : Z.max e1 (e1 + n2) <= 0).
  { unfold n2, fexp, SpecFloat.emin, prec, emax. lia. }
  pose proof (shr_bound mr (shr_record_of_loc mr loc_Exact) e1 n2) as H2.
  rewrite shr_record_m in H2. specialize (H2 ltac:(lia)).
  destruct (shr (shr_record_of_loc mr loc_Exact) e1 n2) as [mrs2 e2]. simpl in H2.
  destruct H2 as [Hm2 He2].
  destruct (shr_m mrs2) as [|m|m] eqn:Em; [left; reflexivity| |lia].
  right. exists m, e2.
  replace (e2 <=? emax - prec) with true; [split; [reflexivity|lia]|].
  symmetry. apply Z.leb_le. unfold emax, prec. lia.
Qed.

Lemma SFdiv_bound m1 e1 m2 e2 :
  Zpos (digits2_pos m1) = 53 -> Zpos (digits2_pos m2) = 53 ->
  e1 - e2 <= 50 ->
  SFdiv prec emax (S754_finite false m1 e1) (S754_finite false m2 e2) = S754_zero false
  \/ exists m e, SFdiv prec emax (S754_finite false m1 e1) (S754_finite false m2 e2)
                 = S754_finite false m e /\ e <= 0.
Proof.
  intros H1 H2 He. unfold SFdiv, SFdiv_core_binary.
  change (Zdigits2 (Zpos m1)) with (Zpos (digits2_pos m1)).
  change (Zdigits2 (Zpos m2)) with (Zpos (digits2_pos m2)).
  rewrite H1, H2.
  set (e' := Z.min (fexp prec emax (53 + e1 - (53 + e2))) (e1 - e2)).
  assert (He' : e' <= -3 /\ 0 <= e1 - e2 - e' <= 53).
  { unfold e', fexp, SpecFloat.emin, prec, emax. lia. }
  set (sh := e1 - e2 - e') in *.
  set (m' := match sh with Zpos _ => Z.shiftl (Zpos m1) sh | Z0 => Zpos m1 | Zneg _ => 0 end).
  assert (Hm' : 0 <= m' < 2 ^ 106).
  { pose proof (digits_gt m1) as G. rewrite H1 in G.
    unfold m'. destruct sh as [|k|k] eqn:Es; [lia| |lia].
    rewrite Z.shiftl_mul_pow2 by lia.
    assert (2 ^ Zpos k <= 2 ^ 53) by (apply Z.pow_le_mono_r; lia).
    assert (0 < 2 ^ Zpos k) by (apply Z.pow_pos_nonneg; lia).
    change (2 ^ 106) with (2 ^ 53 * 2 ^ 53). nia. }
  rewrite div_eucl_pair.
  apply round_aux_bound; [|lia].
  pose proof (digits_le m2) as L. rewrite H2 in L. change (2 ^ (53 - 1)) with (2 ^ 52) in L.
  split.
  - apply Z.div_pos; lia.
  - apply Z.div_lt_upper_bound; [lia|].
    change (2 ^ 106) with (2 ^ 52 * 2 ^ 54) in Hm'.
    assert (0 < 2 ^ 54) by reflexivity. nia.
Qed.

Lemma leb_eighth_shape (r : float) :
  (0.125 <=? r)%float = true ->
  Prim2SF r = S754_infinity false
  \/ exists m e, Prim2SF r = S754_finite false m e
                 /\ Zpos (digits2_pos m) = 53 /\ -55 <= e.
Proof.
  intros H. rewrite FloatAxioms.leb_spec in H.
  pose proof (Prim2SF_valid r) as V.
  change (Prim2SF 0.125) with (S754_finite false 4503599627370496 (-55)) in H.
  destruct (Prim2SF r) as [s|s| |s m e]; unfold SFleb, SFcompare in H.
  - destruct s; discriminate.
  - destruct s; [discriminate|]. left; reflexivity.
  - discriminate.
  - destruct s; [discriminate|]. right. exists m, e.
    assert (He : -55 <= e).
    { destruct (Z.compare_spec (-55) e); try lia; discriminate. }
    split; [reflexivity|]. split; [|assumption].
    simpl in V. unfold bounded, canonical_mantissa in V.
    apply andb_true_iff in V. destruct V as [V _]. apply Z.eqb_eq in V.
    unfold fexp, SpecFloat.emin, prec, emax in V. lia.
Qed.

Lemma canonical_lt m e s (x : float) :
  Prim2SF x = S754_finite s m e -> Zpos m < 2 ^ 53.
Proof.
  intros Hx. pose proof (Prim2SF_valid x) as V. rewrite Hx in V.
  simpl in V. unfold bounded, canonical_mantissa in V.
  apply andb_true_iff in V. destruct V as [V _]. apply Z.eqb_eq in V.
  pose proof (digits_gt m) as G.
  assert (Zpos (digits2_pos m) <= 53).
  { unfold fexp, SpecFloat.emin, prec, emax in V. lia. }
  assert (2 ^ Zpos (digits2_pos m) <= 2 ^ 53) by (apply Z.pow_le_mono_r; lia).
  lia.
Qed.

Lemma ToIndex_round_nonneg (x : float) m e :
  Prim2SF x = S754_finite false m e -> e <= 0 ->
  exists k, ToIndex (Math_round x) = Some k /\ 0 <= k < 2 ^ 53.
Proof.
  intros Hx He. pose proof (canonical_lt m e false x Hx) as Hm.
  unfold Math_round. rewrite Hx. destruct (0 <=? e) eqn:E.
  - apply Z.leb_le in E. assert (e = 0) by lia. subst e.
    exists (Zpos m). unfold ToIndex. rewrite Hx. simpl signed.
    change (0 <=? 0) with true. cbv iota.
    rewrite Z.pow_0_r, Z.mul_1_r.
    replace ((0 <=? Zpos m) && (Zpos m <=? 2 ^ 53 - 1)) with true.
    + split; [reflexivity|lia].
    + symmetry. apply andb_true_iff. split; apply Z.leb_le; lia.
  - apply Z.leb_gt in E. rewrite andb_false_r. unfold signed.
    set (r := (2 * Zpos m + 2 ^ (- e)) / 2 ^ (- e + 1)).
    assert (Hr : 0 <= r < 2 ^ 53).
    { assert (0 < 2 ^ (- e)) by (apply Z.pow_pos_nonneg; lia).
      assert (P : 2 ^ (- e + 1) = 2 * 2 ^ (- e)) by (rewrite Z.pow_add_r by lia; lia).
      assert (2 <= 2 ^ (- e)).
      { change 2 with (2 ^ 1) at 1. apply Z.pow_le_mono_r; lia. }
      unfold r. rewrite P. split.
      - apply Z.div_pos; lia.
      - apply Z.div_lt_upper_bound; [lia|]. nia. }
    exists r. split; [apply ToIndex_of_Z; assumption|assumption].
Qed.

Lemma resample_length_defined (n : Z) (ratio : float) :
  0 <= n < 2 ^ 48 -> (0.125 <=? ratio)%float = true ->
  exists k, ToIndex (Math_round (of_Z n / ratio)) = Some k /\ 0 <= k < 2 ^ 53.
Proof.
  intros [H0 H1] Hr.
  assert (Z0 : forall x, Prim2SF x = S754_zero false ->
               exists k, ToIndex (Math_round x) = Some k /\ 0 <= k < 2 ^ 53).
  { intros x Hx. exists 0. unfold Math_round. rewrite Hx. unfold ToIndex. rewrite Hx.
    split; [reflexivity|lia]. }
  destruct (leb_eighth_shape ratio Hr) as [Hinf | (m2 & e2 & Hb & Hd2 & He2)].
  - apply Z0. rewrite FloatAxioms.div_spec, Hinf. unfold SF64div.
    destruct n as [|p|p]; [reflexivity| |lia].
    assert (Hp : Zpos p < 2 ^ 53) by (eapply Z.lt_trans; [exact H1|reflexivity]).
    destruct (Prim2SF_of_Z_pos p Hp) as (m & e & Hx & _). rewrite Hx. reflexivity.
  - destruct n as [|p|p]; [| |lia].
    + apply Z0. rewrite FloatAxioms.div_spec, Hb. reflexivity.
    + assert (Hp : Zpos p < 2 ^ 53) by (eapply Z.lt_trans; [exact H1|reflexivity]).
      destruct (Prim2SF_of_Z_pos p Hp) as (m & e & Hx & He & Hm & Hd & Hde).
      pose proof (digits_upper p 48 ltac:(lia) H1) as Hdp.
      destruct (SFdiv_bound m e m2 e2 Hd Hd2 ltac:(lia)) as [Hz | (m' & e' & Hq & He')].
      * apply Z0. rewrite FloatAxioms.div_spec, Hx, Hb. exact Hz.
      * apply (ToIndex_round_nonneg _ m' e'); [|assumption].
        rewrite FloatAxioms.div_spec, Hx, Hb. exact Hq.
Qed.

End Binary64.

(** * The waveform encoder

    The writes of [toWav] through the DataView never leave the buffer,
    and what they leave in it is the header followed by two bytes per
    sample. *)

Lemma put_prefix (c t : buffer) (off : Z) (bs : list Z) :
  (0 <=? off) && (off + Z.of_nat (length bs) <=? Z.of_nat (length c)) = true ->
  put (c ++ t) off bs
  = Some ((firstn (Z.to_nat off) c ++ bs ++ skipn (Z.to_nat off + length bs) c) ++ t).
Proof.
  intros H. apply andb_true_iff in H. destruct H as [H0 H1].
  apply Z.leb_le in H0, H1. unfold put.
  replace ((0 <=? off) && (off + Z.of_nat (length bs) <=? Z.of_nat (length (c ++ t)))) with true.
  - f_equal. rewrite firstn_app, skipn_app.
    replace (Z.to_nat off - length c)%nat with 0%nat by lia.
    replace (Z.to_nat off + length bs - length c)%nat with 0%nat by lia.
    simpl. rewrite app_nil_r, <- !app_assoc. reflexivity.
  - symmetry. apply andb_true_iff. split; apply Z.leb_le; [lia|].
    rewrite length_app. lia.
Qed.

Lemma put_at_end (pre rest : buffer) (bs old : list Z) :
  length old = length bs ->
  put (pre ++ old ++ rest) (Z.of_nat (length pre)) bs = Some ((pre ++ bs) ++ rest).
Proof.
  intros Hl. unfold put.
  replace ((0 <=? Z.of_nat (length pre)) &&
           (Z.of_nat (length pre) + Z.of_nat (length bs)
            <=? Z.of_nat (length (pre ++ old ++ rest)))) with true.
  - f_equal. rewrite Nat2Z.id. rewrite firstn_app, Nat.sub_diag, firstn_all. simpl.
    rewrite app_nil_r. rewrite skipn_app.
    replace (length pre + length bs - length pre)%nat with (length bs) by lia.
    rewrite skipn_all2 by lia. simpl.
    rewrite skipn_app, <- Hl, Nat.sub_diag, skipn_all. simpl.
    rewrite <- app_assoc. reflexivity.
  - symmetry. apply andb_true_iff. split; apply Z.leb_le; [lia|].
    rewrite !length_app. lia.
Qed.

Lemma samples_fill (f32 : list float) : forall (pre : buffer) (i : Z),
  Z.of_nat (length pre) = 44 + i * 2 ->
  samples (pre ++ repeat 0 (2 * length f32)) i f32
  = Some (pre ++ flat_map pcm_bytes f32).
Proof.
  induction f32 as [|x rest IH]; intros pre i Hpre.
  - simpl. rewrite !app_nil_r. reflexivity.
  - cbn [samples]. unfold setInt16. rewrite <- Hpre.
    replace (2 * length (x :: rest))%nat with (2 + 2 * length rest)%nat by (simpl; lia).
    rewrite repeat_app.
    rewrite (put_at_end pre _ _ (repeat 0 2)) by reflexivity.
    cbn [bind]. rewrite IH.
    + cbn [flat_map]. rewrite <- app_assoc. reflexivity.
    + rewrite length_app. change (length (le_bytes 2 (ToInt16 (scaled x) mod 65536))) with 2%nat. lia.
Qed.

Lemma ArrayBuffer_split (n : nat) :
  ArrayBuffer (44 + Z.of_nat n * 2) = repeat 0 44 ++ repeat 0 (2 * n).
Proof.
  unfold ArrayBuffer. rewrite <- repeat_app. f_equal. lia.
Qed.

Ltac header_put :=
  match goal with
  | |- context [put (?c ++ ?t) ?o ?bs] =>
      let c' := eval vm_compute in
        (firstn (Z.to_nat o) c ++ bs ++ skipn (Z.to_nat o + length bs) c) in
      replace (put (c ++ t) o bs) with (Some (c' ++ t))
        by (symmetry; apply (put_prefix c t o bs); reflexivity);
      cbn [bind]
  end.

Ltac name_bytes x :=
  generalize (x mod 256) (x / 256 mod 256) (x / 256 / 256 mod 256)
             (x / 256 / 256 / 256 mod 256);
  intros ? ? ? ?.

Lemma toWav_bytes (f32 : list float) (sr : Z) :
  toWav f32 sr
  = Some {| bytes := wav_header (Z.of_nat (length f32)) sr ++ flat_map pcm_bytes f32;
            type := "audio/wav" |}.
Proof.
  unfold toWav, wav_header. rewrite ArrayBuffer_split.
  generalize (Z.of_nat (length f32)); intros n.
  set (t := repeat 0 (2 * length f32)).
  cbn [s]. unfold setUint8, setUint16, setUint32.
  generalize ((36 + n * 2) mod 4294967296) (sr mod 4294967296)
             (sr * 2 mod 4294967296) (n * 2 mod 4294967296).
  intros x1 x2 x3 x4. cbn [le_bytes].
  name_bytes x1. name_bytes x2. name_bytes x3. name_bytes x4.
  repeat header_put.
  unfold t. rewrite samples_fill.
  - cbn [bind]. reflexivity.
  - reflexivity.
Qed.

(** ** Comparisons of doubles *)


Lemma SFcompare_refl (x : spec_float) :
  x <> S754_nan -> SFcompare x x = Some Eq.
Proof.
  destruct x as [s|s| |s m e]; intros H; try destruct s; try reflexivity;
    try congruence; simpl; rewrite Z.compare_refl, Pos.compare_cont_refl; reflexivity.
Qed.

Lemma is_nan_Prim2SF (x : float) :
  is_nan x = match Prim2SF x with S754_nan => true | _ => false end.
Proof.
  unfold is_nan. rewrite FloatAxioms.eqb_spec. unfold SFeqb.
  destruct (Prim2SF x) as [s|s| |s m e] eqn:E; try reflexivity;
    rewrite SFcompare_refl by discriminate; reflexivity.
Qed.





(** ** The sample conversion of [toWav] *)

Lemma ToInt16_range (x : float) : -32768 <= ToInt16 x <= 32767.
Proof.
  unfold ToInt16. destruct (Prim2SF x) as [s|s| |s m e]; try lia.
  match goal with |- context [?t mod 65536] => pose proof (Z.mod_pos_bound t 65536 ltac:(lia)) as B;
    destruct (32768 <=? t mod 65536) eqn:E end.
  - apply Z.leb_le in E. lia.
  - apply Z.leb_gt in E. lia.
Qed.




(** ** The resampler *)


Lemma resample_same_rate (f32 : list float) : resample f32 TARGET_SR = Some f32.
Proof. reflexivity. Qed.

Lemma resample_other_rate (f32 : list float) (srcSR : float) :
  (srcSR =? TARGET_SR)%float = false ->
  Z.of_nat (length f32) < 2 ^ 48 ->
  (0.125 <=? srcSR / TARGET_SR)%float = true ->
  exists k, 0 <= k < 2 ^ 53
    /\ ToIndex (Math_round (of_Z (Z.of_nat (length f32)) / (srcSR / TARGET_SR))) = Some k
    /\ resample f32 srcSR
       = Some (map (fun i => fround (interpolate f32 (srcSR / TARGET_SR) (Z.of_nat i)))
                   (seq 0 (Z.to_nat k))).
Proof.
  intros Hne Hlen Hr.
  destruct (resample_length_defined (Z.of_nat (length f32)) (srcSR / TARGET_SR)
              ltac:(lia) Hr) as (k & Hk & Hb).
  exists k. split; [assumption|]. split; [assumption|].
  unfold resample. rewrite Hne, Hk. reflexivity.
Qed.

(** * Claims about the audio utilities *)

(** C5.  Resampling a buffer that is already at the target rate of
    16000 Hz returns that very buffer, and resampling a buffer captured
    at twice the target rate returns half as many samples, rounded up:
    the output count is within one of half the input count.  Array
    lengths are below 2^53, the integers a JavaScript number holds
    exactly. *)
Theorem resample_identity_and_halving (f32 : list float) :
  Z.of_nat (length f32) < 2 ^ 53 ->
  resample f32 TARGET_SR = Some f32
  /\ exists out,
       resample f32 (2 * TARGET_SR)%float = Some out
       /\ Z.of_nat (length out) = (Z.of_nat (length f32) + 1) / 2
       /\ Z.abs (2 * Z.of_nat (length out) - Z.of_nat (length f32)) <= 1.
Proof.
  intros Hlen. split; [apply resample_same_rate|].
  set (n := Z.of_nat (length f32)) in *.
  assert (Hn : 0 <= n < 2 ^ 53) by (unfold n; lia).
  pose proof (half_round n Hn) as Hk.
  exists (map (fun i => fround (interpolate f32 2 (Z.of_nat i)))
              (seq 0 (Z.to_nat ((n + 1) / 2)))).
  assert (Hq : 0 <= (n + 1) / 2) by (apply Z.div_pos; lia).
  split; [|split].
  - unfold resample.
    change (2 * TARGET_SR =? TARGET_SR)%float with false.
    change (2 * TARGET_SR / TARGET_SR)%float with 2%float.
    fold n. rewrite Hk. reflexivity.
  - rewrite length_map, length_seq, Z2Nat.id by assumption. reflexivity.
  - rewrite length_map, length_seq, Z2Nat.id by assumption.
    pose proof (Z.div_mod (n + 1) 2 ltac:(lia)) as E.
    pose proof (Z.mod_pos_bound (n + 1) 2 ltac:(lia)) as B. lia.
Qed.

Lemma resample_identity_and_halving_witness :
  resample [0.5; -0.5; 2; -3; 1]%float TARGET_SR = Some [0.5; -0.5; 2; -3; 1]%float
  /\ exists out,
       resample [0.5; -0.5; 2; -3; 1]%float (2 * TARGET_SR)%float = Some out
       /\ Z.of_nat (length out) = (5 + 1) / 2
       /\ Z.abs (2 * Z.of_nat (length out) - 5) <= 1.
Proof.
  apply (resample_identity_and_halving [0.5; -0.5; 2; -3; 1]%float).
  vm_compute. reflexivity.
Defined.



(** An example at 22050 Hz: the last output sample reads past the end of
    the source, which counts as 0. *)
Example resample_22050 :
  resample [0.5; -0.5; 2; -3; 1]%float 22050%float
  = Some [0.5; 0.4453125; -1.78125; 0x1.bb3334p-1]%float.
Proof. vm_compute. reflexivity. Qed.

(** C7, as the code has it.  For a buffer of [n] samples [toWav]
    returns a container of 44 + 2n bytes: a 44-byte header that declares
    PCM (format 1), one channel, the sample rate, 16 bits per sample and
    a data length of 2n, followed by exactly 2n bytes of sample data, two
    per sample, little-endian. *)
Theorem toWav_layout (f32 : list float) :
  let n := Z.of_nat (length f32) in
  exists b,
    toWav f32 TARGET_SR_hz = Some b
    /\ size b = 44 + n * 2
    /\ firstn 44 (bytes b) = wav_header n TARGET_SR_hz
    /\ skipn 44 (bytes b) = flat_map pcm_bytes f32
    /\ Z.of_nat (length (skipn 44 (bytes b))) = n * 2
    /\ firstn 16 (skipn 20 (bytes b))
       = [1; 0; 1; 0; 128; 62; 0; 0; 0; 125; 0; 0; 2; 0; 16; 0]
    /\ firstn 4 (skipn 40 (bytes b)) = le_bytes 4 ((n * 2) mod 4294967296).
Proof.
  cbv zeta. rewrite toWav_bytes. eexists. split; [reflexivity|].
  assert (Hh : forall m sr, length (wav_header m sr) = 44%nat) by reflexivity.
  assert (Hp : length (flat_map pcm_bytes f32) = (2 * length f32)%nat).
  { induction f32 as [|x r IH]; [reflexivity|].
    cbn [flat_map]. rewrite length_app, IH. cbn [length pcm_bytes le_bytes]. lia. }
  unfold size. cbn [bytes].
  split; [rewrite length_app, Hh, Hp; lia|].
  split; [reflexivity|]. split; [reflexivity|].
  split; [|split; reflexivity].
  change (skipn 44 (wav_header (Z.of_nat (length f32)) TARGET_SR_hz
                    ++ flat_map pcm_bytes f32))
    with (flat_map pcm_bytes f32).
  rewrite Hp. lia.
Qed.

(** C7, against the claim as stated: the container of one sample has 46
    bytes, not 2. *)
Lemma toWav_size_counterexample :
  exists b, toWav [0.5%float] TARGET_SR_hz = Some b
            /\ size b = 46 /\ size b <> 1 * 2.
Proof.
  eexists. split; [vm_compute; reflexivity|]. split; [reflexivity|discriminate].
Qed.


Example pcm16_examples :
  map (fun x => ToInt16 (scaled x))
      [0; 0.5; -0.5; 1; -1; 2.5; -7; infinity; neg_infinity; nan]%float
  = [0; 16383; -16384; 32767; -32768; 32767; -32768; 32767; -32768; 0].
Proof. vm_compute. reflexivity. Qed.

(** * The chunker and the transport queue *)

Arguments encode : simpl never.
Arguments rms_of : simpl never.
Arguments trim : simpl never.
Arguments endsWith : simpl never.
Arguments text_of : simpl never.

Lemma toWav_defined (f32 : list float) (sr : Z) : exists w, toWav f32 sr = Some w.
Proof. rewrite toWav_bytes. eexists; reflexivity. Qed.

Lemma encode_defined (merged : list float) (sr : float) :
  rate_supported sr = true -> Z.of_nat (length merged) < 2 ^ 48 ->
  exists w, encode merged sr = Some w.
Proof.
  intros Hr Hl. unfold encode.
  destruct (sr =? TARGET_SR)%float eqn:E.
  - unfold resample. rewrite E. cbn [bind]. apply toWav_defined.
  - unfold rate_supported in Hr. rewrite E in Hr. cbn [orb] in Hr.
    destruct (resample_other_rate merged sr E Hl Hr) as (k & _ & _ & Hres).
    rewrite Hres. cbn [bind]. apply toWav_defined.
Qed.

(** Case analysis on every test a handler makes. *)
Ltac handler_cases :=
  repeat (cbn;
          match goal with
          | |- context [if ?b then _ else _] => destruct b eqn:?
          | |- context [match ?x with _ => _ end] =>
              let T := type of x in
              lazymatch T with
              | (state * completion)%type => fail
              | state => fail
              | _ => destruct x eqn:?
              end
          end).

Lemma processQueue_history (st : state) : history (processQueue st) = history st.
Proof.
  unfold history, processQueue. destruct st. handler_cases; try reflexivity.
  cbn. rewrite <- app_assoc. reflexivity.
Qed.

Lemma processQueue_frame (st : state) :
  let st' := processQueue st in
  transcript st' = transcript st /\ pcmBuf st' = pcmBuf st
  /\ running st' = running st /\ isRecording st' = isRecording st
  /\ chunkTmr st' = chunkTmr st /\ capture st' = capture st
  /\ logs st' = logs st /\ wire st' = wire st
  /\ engine st' = engine st /\ nbLocuteurs st' = nbLocuteurs st
  /\ nativeSR st' = nativeSR st.
Proof.
  unfold processQueue. destruct st. handler_cases; repeat split.
Qed.

Lemma flushChunk_empty (st : state) :
  pcmBuf st = [] -> flushChunk st = (addLog DROP st, Normal).
Proof. intros H. unfold flushChunk. rewrite H. reflexivity. Qed.

Lemma flushChunk_silent (st : state) :
  pcmBuf st <> [] -> (rms_of (concat (pcmBuf st)) <? SILENCE)%float = true ->
  flushChunk st = (addLog DROP (set_pcmBuf [] st), Normal).
Proof.
  intros Hne Hs. unfold flushChunk.
  destruct (pcmBuf st) as [|f r] eqn:E; [congruence|].
  cbn [length]. rewrite Nat2Z.inj_succ.
  replace (Z.succ (Z.of_nat (length r)) =? 0) with false by (symmetry; apply Z.eqb_neq; lia).
  replace (nativeSR (set_pcmBuf [] st)) with (nativeSR st) by (destruct st; reflexivity).
  rewrite Hs. reflexivity.
Qed.

Lemma flushChunk_voiced (st : state) (w : Blob) :
  pcmBuf st <> [] -> (rms_of (concat (pcmBuf st)) <? SILENCE)%float = false ->
  encode (concat (pcmBuf st)) (nativeSR st) = Some w ->
  flushChunk st
  = (processQueue (set_wsQueue (wsQueue st ++ [w]) (addLog SEND (set_pcmBuf [] st))),
     Normal).
Proof.
  intros Hne Hs He. unfold flushChunk.
  destruct (pcmBuf st) as [|f r] eqn:E; [congruence|].
  cbn [length]. rewrite Nat2Z.inj_succ.
  replace (Z.succ (Z.of_nat (length r)) =? 0) with false by (symmetry; apply Z.eqb_neq; lia).
  replace (nativeSR (set_pcmBuf [] st)) with (nativeSR st) by (destruct st; reflexivity).
  rewrite Hs, He.
  replace (wsQueue (addLog SEND (set_pcmBuf [] st))) with (wsQueue st) by (destruct st; reflexivity).
  reflexivity.
Qed.

Lemma addLog_frame (tag : LogTag) (st : state) :
  let st' := addLog tag st in
  wsQueue st' = wsQueue st /\ dispatched st' = dispatched st
  /\ jobs st' = jobs st /\ wire st' = wire st /\ pcmBuf st' = pcmBuf st
  /\ capture st' = capture st /\ running st' = running st
  /\ chunkTmr st' = chunkTmr st /\ isRecording st' = isRecording st
  /\ transcript st' = transcript st /\ wsBusy st' = wsBusy st.
Proof. destruct st. cbn. repeat split. Qed.

(** What a flush does to the chunks, by the three cases of the chunker. *)
Lemma flushChunk_cases (st : state) :
  encodable st ->
  let merged := concat (pcmBuf st) in
  (pcmBuf st = [] /\ flushChunk st = (addLog DROP st, Normal))
  \/ (pcmBuf st <> [] /\ (rms_of merged <? SILENCE)%float = true
      /\ flushChunk st = (addLog DROP (set_pcmBuf [] st), Normal))
  \/ (pcmBuf st <> [] /\ (rms_of merged <? SILENCE)%float = false
      /\ exists w, encode merged (nativeSR st) = Some w
           /\ flushChunk st
              = (processQueue (set_wsQueue (wsQueue st ++ [w])
                                 (addLog SEND (set_pcmBuf [] st))), Normal)).
Proof.
  intros [Hr Hl]. cbv zeta.
  destruct (pcmBuf st) as [|f r] eqn:E.
  - left. split; [reflexivity|]. apply flushChunk_empty; assumption.
  - rewrite <- E in *. assert (Hne : pcmBuf st <> []) by (rewrite E; discriminate).
    destruct (rms_of (concat (pcmBuf st)) <? SILENCE)%float eqn:Hs.
    + right; left. repeat split; [assumption|]. apply flushChunk_silent; assumption.
    + right; right. repeat split; [assumption|].
      destruct (encode_defined _ _ Hr Hl) as [w Hw]. exists w. split; [assumption|].
      apply flushChunk_voiced; assumption.
Qed.

(** C2.  A flush of an empty capture buffer, or of a buffer whose
    root-mean-square energy is below the threshold 0.004, enqueues no
    chunk: the queue, the chunks handed to the transport, the sends in
    flight and the messages on the wire are what they were.  Any other
    buffer is encoded and enqueued as exactly one chunk.  The encoder
    serves every buffer shorter than 2^48 samples at a supported native
    rate. *)
Theorem flushChunk_silence_filter (st : state) :
  rate_supported (nativeSR st) = true ->
  Z.of_nat (length (concat (pcmBuf st))) < 2 ^ 48 ->
  let merged := concat (pcmBuf st) in
  let st' := fst (flushChunk st) in
  snd (flushChunk st) = Normal
  /\ (pcmBuf st = [] \/ (rms_of merged <? SILENCE)%float = true ->
      wsQueue st' = wsQueue st /\ dispatched st' = dispatched st
      /\ jobs st' = jobs st /\ wire st' = wire st)
  /\ (pcmBuf st <> [] -> (rms_of merged <? SILENCE)%float = false ->
      exists w, encode merged (nativeSR st) = Some w
                /\ history st' = history st ++ [w]).
Proof.
  intros Hr Hl. cbv zeta.
  destruct (flushChunk_cases st (conj Hr Hl))
    as [[He Hf] | [(Hne & Hs & Hf) | (Hne & Hs & w & Hw & Hf)]];
    rewrite Hf; cbn [fst snd]; (split; [reflexivity|]); split.
  - intros _. destruct st; cbn; repeat split.
  - intros Hne. congruence.
  - intros _. destruct st; cbn; repeat split.
  - intros _ Hs'. congruence.
  - intros [H | H]; congruence.
  - intros _ _. exists w. split; [assumption|].
    rewrite processQueue_history. unfold history. destruct st; cbn.
    apply app_assoc.
Qed.

Lemma flushChunk_silence_filter_witness :
  rate_supported (nativeSR st_voiced) = true
  /\ Z.of_nat (length (concat (pcmBuf st_voiced))) < 2 ^ 48
  /\ snd (flushChunk st_voiced) = Normal
  /\ (pcmBuf st_voiced = []
      \/ (rms_of (concat (pcmBuf st_voiced)) <? SILENCE)%float = true ->
      wsQueue (fst (flushChunk st_voiced)) = wsQueue st_voiced
      /\ dispatched (fst (flushChunk st_voiced)) = dispatched st_voiced
      /\ jobs (fst (flushChunk st_voiced)) = jobs st_voiced
      /\ wire (fst (flushChunk st_voiced)) = wire st_voiced)
  /\ (pcmBuf st_voiced <> [] ->
      (rms_of (concat (pcmBuf st_voiced)) <? SILENCE)%float = false ->
      exists w, encode (concat (pcmBuf st_voiced)) (nativeSR st_voiced) = Some w
                /\ history (fst (flushChunk st_voiced)) = history st_voiced ++ [w]).
Proof.
  split; [reflexivity|]. split; [vm_compute; reflexivity|].
  apply (flushChunk_silence_filter st_voiced); [reflexivity|vm_compute; reflexivity].
Defined.

Lemma stopRecording_unfold (st : state) :
  stopRecording st
  = match flushChunk (stopping st) with
    | (st', Thrown) => (st', Thrown)
    | (st', Normal) => (release (addLog RECV st'), Normal)
    end.
Proof. reflexivity. Qed.

Lemma flushChunk_frame (st : state) :
  let st' := fst (flushChunk st) in
  running st' = running st /\ chunkTmr st' = chunkTmr st
  /\ isRecording st' = isRecording st /\ capture st' = capture st
  /\ transcript st' = transcript st
  /\ (snd (flushChunk st) = Normal -> pcmBuf st' = [])
  /\ (forall j, In j (jobs st) -> In j (jobs st'))
  /\ strayTmrs st' = strayTmrs st /\ strayProcs st' = strayProcs st.
Proof.
  unfold flushChunk, processQueue. destruct st. handler_cases; repeat split;
    try discriminate; try (intros j Hj; try apply in_or_app; auto).
  apply Z.eqb_eq in Heqb. destruct pcmBuf0; [reflexivity|discriminate].
Qed.

(** X21.  [stopRecording] in a state whose buffer the encoder can
    serve.  The running flag and the interval that [chunkTmrRef]
    designates are cleared, so that a frame arriving afterwards changes
    nothing and a tick of whatever interval is still live produces no
    chunk; when no stray interval exists a tick changes nothing at all.
    The function flushes once, through [flushChunk] itself, which
    leaves the capture buffer empty.  It then releases the resources
    that the refs designate whatever the transport is doing: every send
    that was in flight is still in flight.  Stray intervals and
    processors are left as they were. *)
Theorem stopRecording_semantics (st : state) :
  rate_supported (nativeSR st) = true ->
  Z.of_nat (length (concat (pcmBuf st))) < 2 ^ 48 ->
  let st' := fst (stopRecording st) in
  snd (stopRecording st) = Normal
  /\ running st' = false /\ chunkTmr st' = None
  /\ (forall frame, step st' (AudioProcess frame) = st')
  /\ (strayTmrs st = [] -> step st' ChunkTimer = st')
  /\ (history (step st' ChunkTimer) = history st'
      /\ jobs (step st' ChunkTimer) = jobs st'
      /\ wire (step st' ChunkTimer) = wire st')
  /\ st' = release (addLog RECV (fst (flushChunk (stopping st))))
  /\ pcmBuf st' = []
  /\ capture st' = false
  /\ strayTmrs st' = strayTmrs st /\ strayProcs st' = strayProcs st
  /\ (forall j, In j (jobs st) -> In j (jobs st')).
Proof.
  intros Hr Hl. cbv zeta. rewrite stopRecording_unfold.
  assert (He : encodable (stopping st)).
  { split; destruct st; cbn in *; assumption. }
  assert (Hn : snd (flushChunk (stopping st)) = Normal).
  { destruct (flushChunk_cases _ He)
      as [[_ Hf] | [(_ & _ & Hf) | (_ & _ & w & _ & Hf)]]; rewrite Hf; reflexivity. }
  destruct (flushChunk_frame (stopping st))
    as (F1 & F2 & F3 & F4 & F5 & F6 & F7 & F8 & F9).
  destruct (flushChunk (stopping st)) as [s1 c] eqn:Ef. cbn [fst snd] in *. subst c.
  cbn [fst snd].
  assert (R1 : running (release (addLog RECV s1)) = false).
  { destruct s1, st; cbn in *; assumption. }
  assert (R2 : chunkTmr (release (addLog RECV s1)) = None).
  { destruct s1, st; cbn in *; assumption. }
  assert (R3 : capture (release (addLog RECV s1)) = false).
  { destruct s1; reflexivity. }
  assert (R4 : pcmBuf (release (addLog RECV s1)) = []).
  { specialize (F6 eq_refl). destruct s1; cbn in *; assumption. }
  assert (R5 : strayTmrs (release (addLog RECV s1)) = strayTmrs st).
  { destruct s1, st; cbn in *; assumption. }
  assert (R6 : strayProcs (release (addLog RECV s1)) = strayProcs st).
  { destruct s1, st; cbn in *; assumption. }
  assert (Tick : fst (flushChunk (release (addLog RECV s1)))
                 = addLog DROP (release (addLog RECV s1))).
  { rewrite flushChunk_empty by exact R4. reflexivity. }
  split; [reflexivity|]. split; [exact R1|]. split; [exact R2|].
  split; [|split; [|split; [|split; [reflexivity|split; [exact R4|split;
    [exact R3|split; [exact R5|split; [exact R6|]]]]]]]].
  - intros frame. cbn [step]. unfold on_audioprocess. rewrite R1.
    destruct (_ || _); reflexivity.
  - intros Hs. cbn [step]. rewrite R2, R5, Hs. reflexivity.
  - cbn [step]. rewrite R2.
    destruct (strayTmrs (release (addLog RECV s1))); [repeat split; reflexivity|].
    rewrite Tick. unfold history.
    destruct s1; repeat split; reflexivity.
  - intros j Hj. replace (jobs (release (addLog RECV s1))) with (jobs s1)
      by (destruct s1; reflexivity).
    apply F7. destruct st; cbn in *; assumption.
Qed.

Lemma stopRecording_semantics_witness :
  (rate_supported (nativeSR st_in_flight) = true
   /\ Z.of_nat (length (concat (pcmBuf st_in_flight))) < 2 ^ 48)
  /\ (jobs st_in_flight <> []
      /\ wsBusy (fst (stopRecording st_in_flight)) = true
      /\ length (wsQueue (fst (stopRecording st_in_flight))) = 1%nat)
  /\ snd (stopRecording st_in_flight) = Normal
  /\ running (fst (stopRecording st_in_flight)) = false
  /\ chunkTmr (fst (stopRecording st_in_flight)) = None
  /\ (forall frame, step (fst (stopRecording st_in_flight)) (AudioProcess frame)
                    = fst (stopRecording st_in_flight))
  /\ (strayTmrs st_in_flight = [] ->
      step (fst (stopRecording st_in_flight)) ChunkTimer
      = fst (stopRecording st_in_flight))
  /\ (history (step (fst (stopRecording st_in_flight)) ChunkTimer)
      = history (fst (stopRecording st_in_flight))
      /\ jobs (step (fst (stopRecording st_in_flight)) ChunkTimer)
         = jobs (fst (stopRecording st_in_flight))
      /\ wire (step (fst (stopRecording st_in_flight)) ChunkTimer)
         = wire (fst (stopRecording st_in_flight)))
  /\ fst (stopRecording st_in_flight)
     = release (addLog RECV (fst (flushChunk (stopping st_in_flight))))
  /\ pcmBuf (fst (stopRecording st_in_flight)) = []
  /\ capture (fst (stopRecording st_in_flight)) = false
  /\ strayTmrs (fst (stopRecording st_in_flight)) = strayTmrs st_in_flight
  /\ strayProcs (fst (stopRecording st_in_flight)) = strayProcs st_in_flight
  /\ (forall j, In j (jobs st_in_flight) ->
                In j (jobs (fst (stopRecording st_in_flight)))).
Proof.
  split; [split; [reflexivity|vm_compute; reflexivity]|].
  split; [split; [intros H; vm_compute in H; discriminate H
                 |split; vm_compute; reflexivity]|].
  apply (stopRecording_semantics st_in_flight);
    [reflexivity|vm_compute; reflexivity].
Defined.

(** C9.  Stopping after two overlapping starts.  A socket of the
    previous recording reports an error while the microphone request of
    a new start is pending; the status leaves "connecting", the main
    button is enabled again and a second click starts a second request.
    Both requests are granted: the second grant overwrites the refs of
    the first.  [stopRecording] then clears the interval and releases
    the resources that the refs designate, and only those: the interval
    and the processor of the first grant stay live, and a tick of that
    interval still runs [flushChunk], which logs a dropped chunk. *)
Theorem stop_after_double_start_leaves_capture_live :
  let before := run init (removelast double_start_trace) in
  let st := run init double_start_trace in
  isRecording before = true /\ wsStatus before = ready
  /\ st = step before ClickMain
  /\ st = fst (stopRecording before)
  /\ isRecording st = false /\ running st = false
  /\ chunkTmr st = None /\ capture st = false
  /\ strayTmrs st = [2000] /\ strayProcs st = 1%nat
  /\ step st ChunkTimer <> st
  /\ logs (step st ChunkTimer) = logs st ++ [DROP].
Proof.
  cbv zeta.
  split; [vm_compute; reflexivity|]. split; [vm_compute; reflexivity|].
  split; [vm_compute; reflexivity|]. split; [vm_compute; reflexivity|].
  split; [vm_compute; reflexivity|]. split; [vm_compute; reflexivity|].
  split; [vm_compute; reflexivity|]. split; [vm_compute; reflexivity|].
  split; [vm_compute; reflexivity|]. split; [vm_compute; reflexivity|].
  split; [|vm_compute; reflexivity].
  intros H. apply (f_equal (fun s => length (logs s))) in H.
  vm_compute in H. discriminate H.
Qed.

(** * Invariants of the reachable states *)


Lemma reachable_step (st : state) (ev : Event) :
  reachable st -> reachable (step st ev).
Proof.
  intros [evs ->]. exists (evs ++ [ev]). unfold run. rewrite fold_left_app.
  reflexivity.
Qed.

Lemma reachable_induction (P : state -> Prop) :
  P init -> (forall st ev, P st -> P (step st ev)) ->
  forall st, reachable st -> P st.
Proof.
  intros H0 Hs st [evs ->]. induction evs as [|ev evs IH] using rev_ind.
  - exact H0.
  - unfold run. rewrite fold_left_app. apply Hs. exact IH.
Qed.

Ltac unfold_handlers :=
  unfold clickMain, stopRecording, startRecording, startRecording_resume,
    on_audioprocess, flushChunk, on_base64, on_base64_rejected, on_open,
    on_message, on_error, on_close, selectEngine, engine_effect, selectNb,
    selectChunkMs, clickClear, clickClearLogs, clickSave, processQueue,
    release, starting in *.

Lemma step_nb_ok (st : state) (ev : Event) : nb_ok st -> nb_ok (step st ev).
Proof.
  unfold nb_ok. intros H. destruct ev; cbn [step]; unfold_handlers;
    destruct st; cbn in H; handler_cases; cbn; lia.
Qed.

Arguments find_job : simpl never.
Arguments remove_job : simpl never.
Arguments open_job : simpl never.

Lemma find_job_In (i : nat) (js : list Job) (j : Job) :
  find_job i js = Some j -> In j js /\ id j = i.
Proof.
  unfold find_job. intros H. apply find_some in H. destruct H as [H1 H2].
  split; [assumption|]. apply Nat.eqb_eq. assumption.
Qed.

Lemma In_remove_job (i : nat) (js : list Job) (j : Job) :
  In j (remove_job i js) -> In j js /\ id j <> i.
Proof.
  unfold remove_job. intros H. apply filter_In in H. destruct H as [H1 H2].
  split; [assumption|]. apply negb_true_iff, Nat.eqb_neq in H2. assumption.
Qed.

Lemma In_open_job (i : nat) (p : Payload) (js : list Job) (j : Job) :
  In j (open_job i p js) ->
  In j js \/ (socket j = Some p /\ id j = i /\ exists j0, In j0 js /\ id j0 = i /\ wav j = wav j0).
Proof.
  unfold open_job. intros H. apply in_map_iff in H. destruct H as (j0 & E & H).
  destruct (Nat.eqb (id j0) i) eqn:Ei.
  - right. subst j. cbn. apply Nat.eqb_eq in Ei. repeat split. exists j0. auto.
  - left. subst j. assumption.
Qed.

Ltac in_cases :=
  repeat match goal with
    | H : In _ (_ ++ _) |- _ => apply in_app_or in H; destruct H
    | H : In _ (_ :: _) |- _ => destruct H as [H | H]; [subst|]
    | H : In _ [] |- _ => destruct H
    | H : In _ (remove_job _ _) |- _ => apply In_remove_job in H; destruct H
    | H : In _ (open_job _ _ _) |- _ =>
        apply In_open_job in H; destruct H as [H | (? & ? & ? & ? & ? & ?)]
    | H : find_job _ _ = Some _ |- _ => apply find_job_In in H; destruct H
    end.

Lemma step_payloads_ok (st : state) (ev : Event) :
  nb_ok st -> payloads_ok st -> payloads_ok (step st ev).
Proof.
  unfold nb_ok, payloads_ok. intros Hn [Hw Hj].
  destruct ev; cbn [step]; unfold_handlers; unfold buildPayload;
    destruct st; cbn in Hn, Hw, Hj; handler_cases; cbn;
    (split; intros); in_cases; cbn in *;
    try discriminate;
    try (eapply Hw; eassumption);
    try (eapply Hj; eassumption);
    try (eapply Hj; [eassumption|reflexivity]);
    try match goal with
      | H1 : socket ?j = Some ?a, H2 : socket ?j = Some ?b |- _ =>
          rewrite H1 in H2; injection H2 as <-; cbn; lia
      end.
Qed.

(** C4.  In every reachable state the speaker count is at least the
    floor [NB_MIN] of the selected engine, and so is the count in every
    payload the page builds, has built for a socket, or has sent.  The
    floor is 0 for gladia and 1 for vosk and whisper, so a count of 0
    respects the floor of the cloud engine. *)
Theorem speaker_floor_invariant (st : state) :
  reachable st ->
  NB_MIN (engine st) <= nbLocuteurs st
  /\ (forall b64, NB_MIN (p_engine (buildPayload b64 st))
                  <= nb_locuteurs (buildPayload b64 st))
  /\ (forall p, In p (wire st) -> NB_MIN (p_engine p) <= nb_locuteurs p)
  /\ (forall j p, In j (jobs st) -> socket j = Some p ->
                  NB_MIN (p_engine p) <= nb_locuteurs p)
  /\ NB_MIN gladia = 0 /\ NB_MIN vosk = 1 /\ NB_MIN whisper = 1
  /\ NB_MIN gladia <= 0.
Proof.
  intros Hr.
  assert (H : nb_ok st /\ payloads_ok st).
  { revert st Hr. apply reachable_induction.
    - split; [unfold nb_ok; cbn; lia|]. split; cbn; intros; contradiction.
    - intros st ev [H1 H2]. split; [apply step_nb_ok|apply step_payloads_ok]; assumption. }
  destruct H as [Hn [Hw Hj]]. unfold nb_ok in Hn.
  assert (Hm : forall e, NB_MIN e <= 1) by (intros []; cbn; lia).
  repeat split; try reflexivity; try (cbn; lia).
  - specialize (Hm (engine st)). lia.
  - intros b64. unfold buildPayload. destruct st; cbn in *.
    destruct engine0; cbn; lia.
  - intros p Hp. specialize (Hw p Hp). specialize (Hm (p_engine p)). lia.
  - intros j p Hp Hs. specialize (Hj j p Hp Hs). specialize (Hm (p_engine p)). lia.
Qed.

Lemma speaker_floor_invariant_witness :
  let st := run init [SelectNb One; SelectEngine gladia] in
  (engine st = gladia /\ nbLocuteurs st = 1)
  /\ NB_MIN (engine st) <= nbLocuteurs st
  /\ (forall b64, NB_MIN (p_engine (buildPayload b64 st))
                  <= nb_locuteurs (buildPayload b64 st))
  /\ (forall p, In p (wire st) -> NB_MIN (p_engine p) <= nb_locuteurs p)
  /\ (forall j p, In j (jobs st) -> socket j = Some p ->
                  NB_MIN (p_engine p) <= nb_locuteurs p)
  /\ NB_MIN gladia = 0 /\ NB_MIN vosk = 1 /\ NB_MIN whisper = 1
  /\ NB_MIN gladia <= 0.
Proof.
  split; [split; reflexivity|].
  apply (speaker_floor_invariant (run init [SelectNb One; SelectEngine gladia])).
  exists [SelectNb One; SelectEngine gladia]. reflexivity.
Defined.

(** * The transcript *)

Arguments append_text : simpl never.
Arguments last_unit : simpl never.

Lemma last_unit_app (a t : jsstring) : t <> [] -> last_unit (a ++ t) = last_unit t.
Proof.
  intros H. unfold last_unit. rewrite rev_app_distr.
  destruct (rev t) as [|c r] eqn:E.
  - apply (f_equal (@rev N)) in E. rewrite rev_involutive in E. contradiction.
  - reflexivity.
Qed.

Lemma trimStart_head (t : jsstring) (c : N) (r : jsstring) :
  trimStart t = c :: r -> is_white c = false.
Proof.
  induction t as [|d t IH]; cbn; [discriminate|].
  destruct (is_white d) eqn:E; [assumption|].
  intros H. injection H as <- _. assumption.
Qed.

Lemma trim_last (t : jsstring) (c : N) :
  last_unit (trim t) = Some c -> is_white c = false.
Proof.
  unfold last_unit, trim. rewrite rev_involutive.
  destruct (trimStart (rev (trimStart t))) as [|d r] eqn:E; [discriminate|].
  intros H. injection H as <-. eapply trimStart_head. exact E.
Qed.

Lemma length_zero_nil {A : Type} (l : list A) :
  (Z.of_nat (length l) =? 0) = false -> l <> [].
Proof. intros H ->. discriminate H. Qed.

Lemma append_text_last (prev txt : jsstring) (c : N) :
  txt <> [] -> last_unit (append_text prev txt) = Some c -> last_unit txt = Some c.
Proof.
  intros Hne. unfold append_text. rewrite app_assoc, last_unit_app by assumption.
  auto.
Qed.

Lemma step_transcript_ok (st : state) (ev : Event) :
  transcript_ok st -> transcript_ok (step st ev).
Proof.
  unfold transcript_ok. intros H.
  destruct ev; cbn [step]; unfold_handlers; destruct st; cbn in H;
    handler_cases; cbn; intros ? ?; try (apply H; assumption);
    try discriminate;
    match goal with
    | Hn : negb (Z.of_nat (length (trim ?t)) =? 0) = true,
      Hc : last_unit (append_text _ (trim ?t)) = Some _ |- _ =>
        apply negb_true_iff, length_zero_nil in Hn;
        apply append_text_last in Hc;
        [eapply trim_last; exact Hc | assumption]
    end.
Qed.

Lemma reachable_transcript_ok (st : state) : reachable st -> transcript_ok st.
Proof.
  revert st. apply reachable_induction.
  - intros c Hc. discriminate Hc.
  - intros st ev. apply step_transcript_ok.
Qed.

Lemma append_text_spec (prev txt : jsstring) :
  (forall c, last_unit prev = Some c -> is_white c = false) ->
  append_text prev txt = spec_append prev txt
  /\ ends_in_white prev = false.
Proof.
  intros H. unfold append_text, spec_append, ends_in_white, endsWith, space.
  unfold last_unit in *. destruct (rev prev) as [|d r] eqn:E.
  - apply (f_equal (@rev N)) in E. rewrite rev_involutive in E. subst prev.
    split; reflexivity.
  - specialize (H d eq_refl). rewrite H. split; [|reflexivity].
    assert (Hl : (Z.of_nat (length prev) =? 0) = false).
    { apply Z.eqb_neq. destruct prev; [discriminate E|cbn; lia]. }
    rewrite Hl. cbn [negb andb orb rev app startsWith].
    assert (Hd : (32 =? d)%N = false).
    { apply N.eqb_neq. intros <-. discriminate H. }
    rewrite Hd. reflexivity.
Qed.

(** C3.  For a result message on an open socket, the handler trims the
    returned text.  A non-empty trimmed text is appended to the
    transcript by the rule of the specification: directly when the
    transcript is empty or ends in whitespace, behind exactly one space
    otherwise (a reachable transcript never ends in whitespace).  An
    empty trimmed text leaves the transcript as it is and logs one WARN
    line.  A field that is no text makes the handler throw inside its
    try block, which changes nothing. *)
Theorem result_append_rule (st : state) (i : nat) (tc : option Json)
    (j : Job) (p : Payload) :
  reachable st -> find_job i (jobs st) = Some j -> socket j = Some p ->
  let st' := step st (WsMessage i (Result tc)) in
  match text_of tc with
  | Some t =>
      (trim t <> [] ->
       transcript st' = spec_append (transcript st) (trim t)
       /\ ends_in_white (transcript st) = false)
      /\ (trim t = [] ->
          transcript st' = transcript st /\ st' = addLog WARN st)
  | None => st' = st
  end.
Proof.
  intros Hr Hf Hs. cbv zeta. cbn [step]. unfold on_message. rewrite Hf.
  destruct j as [ji jw js]. cbn in Hs. subst js.
  destruct (text_of tc) as [t|]; [|reflexivity].
  pose proof (append_text_spec (transcript st) (trim t) (reachable_transcript_ok st Hr))
    as [Ha Hw].
  destruct (trim t) as [|c r] eqn:Et.
  - cbn. split; [intros H; congruence|]. intros _.
    split; [destruct st; reflexivity|reflexivity].
  - replace (negb (Z.of_nat (length (c :: r)) =? 0)) with true by reflexivity.
    split; [|discriminate]. intros _. split; [|assumption].
    rewrite <- Ha. destruct st; reflexivity.
Qed.

Lemma result_append_rule_witness :
  transcript (step st_said_bonjour
                (WsMessage 0 (Result (Some (JStr (of_string "  docteur
"))))))
  = of_string "bonjour docteur".
Proof.
  assert (Hr : reachable st_said_bonjour) by (eexists; reflexivity).
  destruct (find_job 0 (jobs st_said_bonjour)) as [j|] eqn:Ej;
    [|vm_compute in Ej; discriminate Ej].
  destruct (socket j) as [p|] eqn:Es;
    [|vm_compute in Ej; injection Ej as <-; discriminate Es].
  pose proof (result_append_rule st_said_bonjour 0
                (Some (JStr (of_string "  docteur
"))) j p Hr Ej Es) as H.
  cbv zeta in H. change (text_of (Some (JStr (of_string "  docteur
")))) with (Some (of_string "  docteur
")) in H.
  destruct H as [H _].
  assert (Hne : trim (of_string "  docteur
") <> []) by (vm_compute; discriminate).
  destruct (H Hne) as [Ht _]. rewrite Ht. vm_compute. reflexivity.
Defined.

(** * Failures and the order of sends *)

Lemma step_ids_fresh (st : state) (ev : Event) :
  ids_fresh st -> ids_fresh (step st ev).
Proof.
  unfold ids_fresh. intros H.
  destruct ev; cbn [step]; unfold_handlers; destruct st; cbn in H;
    handler_cases; cbn; intros ? ?; in_cases; cbn in *;
    try contradiction;
    try (apply H; assumption);
    try (apply Nat.lt_lt_succ_r; apply H; assumption);
    try lia;
    try match goal with
      | Hi : id ?j = ?i, Hj : In ?j0 _, Hj0 : id ?j0 = ?i |- (id ?j < _)%nat =>
          rewrite Hi, <- Hj0; try apply Nat.lt_lt_succ_r; apply H; assumption
      end.
Qed.

Lemma reachable_ids_fresh (st : state) : reachable st -> ids_fresh st.
Proof.
  revert st. apply reachable_induction.
  - intros j Hj. destruct Hj.
  - intros st ev. apply step_ids_fresh.
Qed.

Lemma find_job_remove (i : nat) (js : list Job) : find_job i (remove_job i js) = None.
Proof.
  unfold find_job, remove_job. induction js as [|j js IH]; [reflexivity|].
  cbn. destruct (Nat.eqb (id j) i) eqn:E; cbn; [assumption|].
  rewrite E. assumption.
Qed.

Lemma find_job_app_fresh (i : nat) (js : list Job) (j : Job) :
  find_job i js = None -> id j <> i -> find_job i (js ++ [j]) = None.
Proof.
  unfold find_job. intros H Hj. apply Nat.eqb_neq in Hj.
  induction js as [|k js IH]; cbn in *.
  - rewrite Hj. reflexivity.
  - destruct (Nat.eqb (id k) i); [discriminate H|]. apply IH. assumption.
Qed.

Lemma on_close_next (st : state) (i : nat) (j : Job) (p : Payload) :
  find_job i (jobs st) = Some j -> socket j = Some p ->
  next_dispatched i st (on_close i st)
  /\ transcript (on_close i st) = transcript st
  /\ same_recording st (on_close i st).
Proof.
  intros Hf Hs. unfold on_close, next_dispatched, same_recording. rewrite Hf.
  destruct j as [ji jw js]. cbn in Hs. subst js.
  unfold processQueue. destruct st; cbn. destruct wsQueue0 as [|w rest]; cbn;
    repeat split.
Qed.

Lemma on_base64_failed_next (st : state) (i : nat) (j : Job) :
  find_job i (jobs st) = Some j -> socket j = None ->
  next_dispatched i st (on_base64 i false st)
  /\ transcript (on_base64 i false st) = transcript st
  /\ same_recording st (on_base64 i false st).
Proof.
  intros Hf Hs. unfold on_base64, next_dispatched, same_recording. rewrite Hf.
  destruct j as [ji jw js]. cbn in Hs. subst js.
  unfold processQueue. destruct st; cbn. destruct wsQueue0 as [|w rest]; cbn;
    repeat split.
Qed.

Lemma next_dispatched_gone (st st' : state) (i : nat) (j : Job) :
  ids_fresh st -> find_job i (jobs st) = Some j ->
  next_dispatched i st st' ->
  find_job i (jobs st') = None /\ history st' = history st.
Proof.
  intros Hi Hf Hn. unfold next_dispatched, history in *.
  apply find_job_In in Hf. destruct Hf as [Hin Hid].
  specialize (Hi j Hin). destruct (wsQueue st) as [|w rest].
  - destruct Hn as (_ & Hq & Hj & Hd). rewrite Hq, Hj, Hd.
    split; [apply find_job_remove|reflexivity].
  - destruct Hn as (_ & Hq & Hj & Hd). rewrite Hq, Hj, Hd. split.
    + apply find_job_app_fresh; [apply find_job_remove|]. cbn. lia.
    + rewrite <- app_assoc. reflexivity.
Qed.

(** X20.  When the send of a chunk fails on its socket or at the
    construction of the socket, the notifications of the
    failure (the socket's error event, a server message of type error)
    change neither the transcript, the queue, the sends in flight nor
    the recording.  The end of the failed send (the socket closing, or
    the WebSocket constructor throwing) removes the chunk for good: it
    is no longer in flight and the list of chunks in creation order is
    what it was, so nothing was put back in the queue; the transcript
    and the recording are untouched, the busy flag is cleared and the
    next queued chunk, if any, is dispatched at once. *)
Theorem chunk_failure_is_isolated (st : state) (i : nat) (j : Job) :
  reachable st -> find_job i (jobs st) = Some j ->
  (forall ev, ev = WsError i \/ ev = WsMessage i ServerError ->
     let st' := step st ev in
     transcript st' = transcript st /\ wsQueue st' = wsQueue st
     /\ dispatched st' = dispatched st /\ jobs st' = jobs st
     /\ wsBusy st' = wsBusy st /\ same_recording st st')
  /\ (forall ev,
        (ev = WsClose i /\ socket j <> None)
        \/ (ev = Base64Loaded i false /\ socket j = None) ->
        let st' := step st ev in
        transcript st' = transcript st /\ same_recording st st'
        /\ find_job i (jobs st') = None
        /\ history st' = history st
        /\ next_dispatched i st st').
Proof.
  intros Hr Hf. split.
  - intros ev [-> | ->]; cbv zeta; cbn [step]; unfold on_error, on_message;
      rewrite Hf; destruct j as [ji jw [p|]]; unfold same_recording;
      destruct st; cbn; repeat split.
  - intros ev [[-> Hs] | [-> Hs]]; cbv zeta; cbn [step].
    + destruct (socket j) as [p|] eqn:Es; [|congruence].
      destruct (on_close_next st i j p Hf Es) as (Hn & Ht & Hsame).
      destruct (next_dispatched_gone st _ i j (reachable_ids_fresh st Hr) Hf Hn).
      auto 10.
    + destruct (on_base64_failed_next st i j Hf Hs) as (Hn & Ht & Hsame).
      destruct (next_dispatched_gone st _ i j (reachable_ids_fresh st Hr) Hf Hn).
      auto 10.
Qed.

Lemma chunk_failure_is_isolated_witness :
  length (wsQueue st_queued) = 1%nat
  /\ transcript (step st_queued (WsError 0)) = transcript st_queued
  /\ jobs (step st_queued (WsError 0)) = jobs st_queued
  /\ find_job 0 (jobs (step st_queued (WsClose 0))) = None
  /\ history (step st_queued (WsClose 0)) = history st_queued
  /\ next_dispatched 0 st_queued (step st_queued (WsClose 0)).
Proof.
  split; [vm_compute; reflexivity|].
  assert (Hr : reachable st_queued) by (eexists; reflexivity).
  destruct (find_job 0 (jobs st_queued)) as [j|] eqn:Ej;
    [|vm_compute in Ej; discriminate Ej].
  assert (Hs : socket j <> None).
  { vm_compute in Ej. injection Ej as <-. discriminate. }
  destruct (chunk_failure_is_isolated st_queued 0 j Hr Ej) as [H1 H2].
  destruct (H1 (WsError 0) (or_introl eq_refl)) as (T1 & _ & _ & J1 & _).
  destruct (H2 (WsClose 0) (or_introl (conj eq_refl Hs))) as (_ & _ & F & Hh & Hn).
  exact (conj T1 (conj J1 (conj F (conj Hh Hn)))).
Defined.

Lemma step_stalled (st : state) (ev : Event) :
  stalled st -> grants_microphone ev = false ->
  stalled (step st ev)
  /\ dispatched (step st ev) = dispatched st
  /\ wire (step st ev) = wire st
  /\ exists ws, wsQueue (step st ev) = wsQueue st ++ ws.
Proof.
  unfold stalled. intros [Hb Hj] Hev.
  destruct ev; try discriminate Hev; cbn [step]; unfold_handlers;
    destruct st; cbn in Hb, Hj; subst; unfold find_job; cbn;
    handler_cases; cbn; repeat split;
    try (exists []; rewrite app_nil_r; reflexivity);
    try (eexists; reflexivity).
Qed.

Lemma run_stalled (evs : list Event) : forall st,
  stalled st -> existsb grants_microphone evs = false ->
  stalled (run st evs)
  /\ dispatched (run st evs) = dispatched st
  /\ wire (run st evs) = wire st
  /\ exists ws, wsQueue (run st evs) = wsQueue st ++ ws.
Proof.
  induction evs as [|ev evs IH]; intros st Hs Hg.
  - repeat split; try apply Hs. exists []. rewrite app_nil_r. reflexivity.
  - cbn [existsb] in Hg. apply orb_false_elim in Hg. destruct Hg as [G1 G2].
    destruct (step_stalled st ev Hs G1) as (S1 & D1 & W1 & ws1 & Q1).
    destruct (IH (step st ev) S1 G2) as (S2 & D2 & W2 & ws2 & Q2).
    cbn [run fold_left]. fold (run (step st ev) evs).
    split; [exact S2|]. split; [congruence|]. split; [congruence|].
    exists (ws1 ++ ws2). rewrite Q2, Q1, app_assoc. reflexivity.
Qed.

(** C8, at the input on which the code breaks it.  The read of a
    chunk by [blobToBase64] is rejected: the [then] of [processQueue]
    has no rejection handler, so the busy flag, which only that
    continuation and the socket's close handler clear, stays set with
    nothing in flight.  The chunk that is flushed next waits in the
    queue, and whatever happens afterwards, short of a new recording,
    no chunk is dispatched again: the sends in flight stay none, the
    chunks taken from the queue and the messages sent stay what they
    were, and the queue only grows.  On the sibling path, the WebSocket
    constructor throwing, the handler clears the flag and the waiting
    chunk is dispatched. *)
Theorem rejected_read_stalls_the_queue :
  let st := run init rejected_read_trace in
  let sibling := run init constructor_throws_trace in
  (isRecording st = true /\ wsBusy st = true /\ jobs st = []
   /\ length (wsQueue st) = 1%nat /\ length (dispatched st) = 1%nat
   /\ wire st = [])
  /\ (forall evs, existsb grants_microphone evs = false ->
        wsBusy (run st evs) = true /\ jobs (run st evs) = []
        /\ dispatched (run st evs) = dispatched st
        /\ wire (run st evs) = []
        /\ exists ws, wsQueue (run st evs) = wsQueue st ++ ws)
  /\ (wsQueue sibling = [] /\ length (dispatched sibling) = 2%nat
      /\ map id (jobs sibling) = [1%nat]).
Proof.
  cbv zeta. split; [vm_compute; repeat split|]. split; [|vm_compute; repeat split].
  intros evs Hg.
  assert (Hs : stalled (run init rejected_read_trace))
    by (split; vm_compute; reflexivity).
  destruct (run_stalled evs _ Hs Hg) as ([S1 S2] & D & W & Q).
  split; [exact S1|]. split; [exact S2|]. split; [exact D|].
  split; [|exact Q]. rewrite W. vm_compute. reflexivity.
Qed.

(** C1, at the input on which the code breaks it.  A recording is
    stopped while its chunk is still on an open socket and a new
    recording is started: [startRecording] clears the busy flag, so the
    first chunk of the new recording is dispatched while the old one is
    outstanding (two sockets open, two payloads sent).  When the old
    socket then closes, its handler clears the busy flag again, and the
    next chunk of the new recording is dispatched while the previous
    one of that same recording is outstanding. *)
Theorem restart_puts_two_sends_in_flight :
  let st := run init restart_trace in
  let st' := run st [WsClose 0; AudioProcess [0.5; -0.5]%float; ChunkTimer;
                     Base64Loaded 2 true; WsOpen 2] in
  (map id (jobs st) = [0; 1]%nat
   /\ forallb (fun j => match socket j with Some _ => true | None => false end)
              (jobs st) = true
   /\ length (wire st) = 2%nat /\ wsBusy st = true)
  /\ (map id (jobs st') = [1; 2]%nat
      /\ forallb (fun j => match socket j with Some _ => true | None => false end)
                 (jobs st') = true
      /\ length (wire st') = 3%nat /\ isRecording st' = true).
Proof. vm_compute. repeat split. Qed.

(** ** One send at a time, within a recording *)

Lemma length_open_job (i : nat) (p : Payload) (js : list Job) :
  length (open_job i p js) = length js.
Proof. unfold open_job. apply length_map. Qed.





(** The chunks are taken from the queue in the order of their creation:
    an event either leaves the creation order as it is or, when a flush
    emits a chunk, adds that chunk at its end; only a new recording
    empties the queue. *)
Lemma step_history (st : state) (ev : Event) :
  (forall mic, ev <> UserMedia mic) ->
  history (step st ev) = history st
  \/ exists w, history (step st ev) = history st ++ [w].
Proof.
  intros Hev. unfold history.
  destruct ev; try (exfalso; eapply Hev; reflexivity);
    cbn [step]; unfold_handlers; destruct st;
    handler_cases; cbn;
    try (left; reflexivity);
    try (left; rewrite <- app_assoc; reflexivity);
    try (right; eexists; rewrite <- !app_assoc; reflexivity);
    try (right; eexists; rewrite <- ?app_assoc; cbn; rewrite ?app_assoc; reflexivity).
  all: match goal with
       | Heq : ?q ++ [?b] = [] |- _ => destruct q; discriminate Heq
       | Heq : ?q ++ [?b] = _ :: _ |- _ =>
           right; exists b; rewrite <- app_assoc; cbn [app]; rewrite <- Heq;
           apply app_assoc
       end.
Qed.

(** * Further properties of the page *)

(** ** The queue *)

Lemma app_one_not_nil {A : Type} (l : list A) (x : A) : l ++ [x] <> [].
Proof. destruct l; discriminate. Qed.

Ltac stranded_cases Hq Hb :=
  try discriminate; try (exfalso; congruence);
  try (apply app_one_not_nil);
  try reflexivity;
  try (apply Hq; assumption); try (apply Hb; assumption);
  try match goal with
    | H : (Z.of_nat (length (_ ++ [_])) =? 0) = true |- _ =>
        rewrite length_app in H; cbn in H; apply Z.eqb_eq in H; lia
    | H : (Z.of_nat (length ?l) =? 0) = true, Hn : ?l <> [] |- _ =>
        destruct l; [congruence|discriminate H]
    | |- open_job _ _ ?js <> [] =>
        intros E; apply (f_equal (@length Job)) in E;
        rewrite length_open_job in E; destruct js;
        [apply Hb; reflexivity|discriminate E]
    end.

Lemma step_queue_waits (st : state) (ev : Event) :
  (wsQueue st <> [] -> wsBusy st = true) ->
  wsQueue (step st ev) <> [] -> wsBusy (step st ev) = true.
Proof.
  intros Hq.
  destruct ev; cbn [step]; unfold_handlers; destruct st; cbn in Hq;
    handler_cases; cbn; intros;
    stranded_cases Hq Hq;
    try (destruct wsBusy0; cbn in *; try discriminate; try reflexivity;
         stranded_cases Hq Hq).
Qed.

Lemma step_never_stranded (st : state) (ev : Event) :
  never_stranded st -> read_rejected ev = false -> never_stranded (step st ev).
Proof.
  unfold never_stranded. intros [Hq Hb] Hrj.
  destruct ev; try discriminate Hrj;
    cbn [step]; unfold_handlers; destruct st; cbn in Hq, Hb;
    handler_cases; cbn; (split; intros);
    stranded_cases Hq Hb;
    try (destruct wsBusy0; cbn in *; try discriminate; try reflexivity;
         try (apply Hb; reflexivity); stranded_cases Hq Hb).
Qed.

Lemma run_queue_waits (evs : list Event) : forall st,
  (wsQueue st <> [] -> wsBusy st = true) ->
  wsQueue (run st evs) <> [] -> wsBusy (run st evs) = true.
Proof.
  induction evs as [|ev evs IH]; intros st H; [exact H|].
  cbn [run fold_left]. apply IH. apply step_queue_waits. exact H.
Qed.

Lemma run_never_stranded (evs : list Event) : forall st,
  never_stranded st -> existsb read_rejected evs = false ->
  never_stranded (run st evs).
Proof.
  induction evs as [|ev evs IH]; intros st H Hr; [exact H|].
  cbn [existsb] in Hr. apply orb_false_elim in Hr. destruct Hr as [H1 H2].
  cbn [run fold_left]. apply IH; [|exact H2].
  apply step_never_stranded; assumption.
Qed.

(** X1.  After any sequence of events a chunk waits in the queue
    only while the busy flag is set; and as long as no read of a chunk
    has been rejected, the busy flag is set only while a send is in
    flight, so that a waiting chunk has a send whose end will dispatch
    it. *)
Theorem queue_never_stranded (evs : list Event) :
  let st := run init evs in
  (wsQueue st <> [] -> wsBusy st = true)
  /\ (existsb read_rejected evs = false -> wsBusy st = true -> jobs st <> []).
Proof.
  cbv zeta. split.
  - apply run_queue_waits. intros H. contradiction H. reflexivity.
  - intros Hr. apply (run_never_stranded evs init); [|exact Hr].
    split; [intros H; contradiction H; reflexivity|discriminate].
Qed.






(** X3.  Chunks keep their order.  While no new recording is
    started, the sequence of the chunks already taken from the queue
    followed by those still waiting only grows at its end: a chunk
    leaves the queue only by being taken for sending, and never after a
    chunk created later. *)
Theorem chunks_keep_their_order (st : state) (evs : list Event) :
  existsb grants_microphone evs = false ->
  exists ws, dispatched (run st evs) ++ wsQueue (run st evs)
             = (dispatched st ++ wsQueue st) ++ ws.
Proof.
  revert st. induction evs as [|ev evs IH]; intros st H.
  - exists []. rewrite app_nil_r. reflexivity.
  - cbn [existsb] in H. apply orb_false_elim in H. destruct H as [H1 H2].
    cbn [run fold_left]. destruct (IH (step st ev) H2) as [ws Hws].
    fold (run (step st ev) evs). rewrite Hws.
    destruct (step_history st ev) as [E|[w E]].
    + intros mic ->. discriminate H1.
    + exists ws. unfold history in E. rewrite E. reflexivity.
    + exists (w :: ws). unfold history in E. rewrite E, <- app_assoc. reflexivity.
Qed.

Lemma chunks_keep_their_order_witness :
  exists ws, dispatched (run st_in_flight [AudioProcess [0.25; -0.5]%float; ChunkTimer; WsClose 0])
             ++ wsQueue (run st_in_flight [AudioProcess [0.25; -0.5]%float; ChunkTimer; WsClose 0])
             = (dispatched st_in_flight ++ wsQueue st_in_flight) ++ ws.
Proof.
  apply (chunks_keep_their_order st_in_flight
           [AudioProcess [0.25; -0.5]%float; ChunkTimer; WsClose 0]).
  reflexivity.
Defined.

(** ** The flags of a recording *)







(** ** The messages on the wire *)

Lemma buildPayload_conforms (b64 : Blob) (st : state) :
  conforms (buildPayload b64 st) /\ audio (buildPayload b64 st) = b64.
Proof.
  unfold conforms, buildPayload. destruct (engine st); cbn; auto 10.
Qed.

Lemma step_wire_ok (st : state) (ev : Event) : wire_ok st -> wire_ok (step st ev).
Proof.
  unfold wire_ok. intros (Hw & Hd & Hj).
  destruct ev; cbn [step]; unfold_handlers; destruct st; cbn in Hw, Hd, Hj;
    handler_cases; cbn; (split; [|split]); intros; in_cases; cbn in *;
    try discriminate; try contradiction;
    try (apply Hw; assumption); try (apply Hd; assumption);
    try (eapply Hj; eassumption);
    try (apply in_or_app; right; left; reflexivity);
    try (apply in_or_app; left; apply Hd; assumption);
    try (destruct (Hw _ ltac:(eassumption)) as [? ?]; split;
         [assumption|try apply in_or_app; auto]);
    try (destruct (Hj _ _ ltac:(eassumption) ltac:(eassumption)) as [? ?]; split;
         [assumption|try apply in_or_app; auto]);
    try (destruct (Hj _ _ ltac:(eassumption) eq_refl) as [? ?]; split;
         [assumption|try apply in_or_app; auto]);
    try match goal with
      | Hx : wav ?j = wav ?x |- In (wav ?j) _ => rewrite Hx; apply Hd; assumption
      | Ha : socket ?j = Some ?a, Hb : socket ?j = Some ?b |- conforms ?b /\ _ =>
          rewrite Ha in Hb; injection Hb as <-;
          match goal with
          | |- context [buildPayload ?w ?s] =>
              destruct (buildPayload_conforms w s) as [Hc Ha']; split;
              [exact Hc|rewrite Ha'];
              match goal with
              | Hin : In {| id := _; wav := w; socket := _ |} _ |- _ =>
                  apply (Hd _ Hin)
              end
          end
      end.
Qed.

(** X5.  Every message handed to [ws.send] carries a chunk that
    was taken from the queue, and exactly the fields that the protocol
    gives the engine named in it. *)
Theorem wire_follows_protocol (st : state) (p : Payload) :
  reachable st -> In p (wire st) ->
  In (audio p) (dispatched st)
  /\ match p_engine p with
     | vosk =>
         modele_vosk p = Some "grand"%string /\ config_whisper p = None
         /\ methode_bruit p = Some "false"%string
         /\ type_environnement p = Some "2"%string
     | whisper =>
         modele_vosk p = None /\ config_whisper p = Some "cpu_rapide"%string
         /\ methode_bruit p = Some "false"%string
         /\ type_environnement p = Some "2"%string
     | gladia =>
         modele_vosk p = None /\ config_whisper p = None
         /\ methode_bruit p = None /\ type_environnement p = None
     end.
Proof.
  intros Hr Hp.
  assert (H : wire_ok st).
  { revert st Hr Hp. intros st Hr _. revert st Hr.
    apply (reachable_induction wire_ok).
    - repeat split; cbn; intros; contradiction.
    - apply step_wire_ok. }
  destruct H as (Hw & _ & _). destruct (Hw p Hp) as [Hc Hd].
  split; [assumption|exact Hc].
Qed.

Lemma wire_follows_protocol_witness :
  exists p, wire st_vosk_sent = [p] /\ p_engine p = vosk
            /\ In (audio p) (dispatched st_vosk_sent)
            /\ modele_vosk p = Some "grand"%string /\ config_whisper p = None
            /\ methode_bruit p = Some "false"%string
            /\ type_environnement p = Some "2"%string.
Proof.
  destruct (wire st_vosk_sent) as [|p [|q r]] eqn:E;
    try (vm_compute in E; discriminate E).
  exists p. split; [reflexivity|].
  assert (He : p_engine p = vosk).
  { vm_compute in E. injection E as <-. reflexivity. }
  split; [assumption|].
  assert (Hr : reachable st_vosk_sent) by (eexists; reflexivity).
  assert (Hp : In p (wire st_vosk_sent)) by (rewrite E; left; reflexivity).
  pose proof (wire_follows_protocol st_vosk_sent p Hr Hp) as [Hd Hc].
  rewrite He in Hc. split; [assumption|exact Hc].
Defined.

(** ** The speaker count *)

(** X6.  The speaker count is always 1 or 2, and selecting an
    engine never changes it: the effect that would raise a count below
    1 for gladia finds nothing to do. *)
Theorem engine_change_keeps_speaker_count (st : state) (e : Engine) :
  reachable st ->
  (nbLocuteurs st = 1 \/ nbLocuteurs st = 2)
  /\ engine_effect (set_engine e st) = set_engine e st
  /\ nbLocuteurs (selectEngine e st) = nbLocuteurs st
  /\ engine (selectEngine e st) = e.
Proof.
  intros Hr.
  assert (Hn : nb_ok st).
  { revert st Hr. apply (reachable_induction nb_ok).
    - unfold nb_ok. cbn. lia.
    - apply step_nb_ok. }
  unfold nb_ok in Hn. split; [lia|].
  assert (Hlt : (nbLocuteurs st <? 1) = false) by (apply Z.ltb_ge; lia).
  assert (He : engine_effect (set_engine e st) = set_engine e st).
  { unfold engine_effect.
    replace (nbLocuteurs (set_engine e st)) with (nbLocuteurs st)
      by (destruct st; reflexivity).
    rewrite Hlt, andb_false_r. reflexivity. }
  split; [assumption|]. unfold selectEngine.
  destruct (Engine_eqb (engine st) e) eqn:Ee.
  - split; [reflexivity|]. destruct (engine st), e; try discriminate; reflexivity.
  - rewrite He. destruct st; split; reflexivity.
Qed.

Lemma engine_change_keeps_speaker_count_witness :
  let st := run init [SelectNb One] in
  (nbLocuteurs st = 1 \/ nbLocuteurs st = 2)
  /\ engine_effect (set_engine gladia st) = set_engine gladia st
  /\ nbLocuteurs (selectEngine gladia st) = nbLocuteurs st
  /\ engine (selectEngine gladia st) = gladia.
Proof.
  apply (engine_change_keeps_speaker_count (run init [SelectNb One]) gladia).
  eexists; reflexivity.
Defined.

(** ** The network log *)

Lemma addLog_length (tag : LogTag) (st : state) :
  length (logs (addLog tag st)) = S (Nat.min (length (logs st)) 199).
Proof.
  destruct st; cbn. rewrite length_app, length_skipn. cbn. lia.
Qed.

Lemma step_log_bounded (st : state) (ev : Event) :
  log_bounded st -> log_bounded (step st ev).
Proof.
  unfold log_bounded. intros H.
  destruct ev; cbn [step]; unfold_handlers; destruct st; cbn in H;
    handler_cases; cbn; try assumption;
    repeat (rewrite length_app, length_skipn; cbn [length]); lia.
Qed.

(** X7.  The network log never holds more than 200 lines.
    [addLog] keeps the last 199 lines in their order and puts the new
    line last. *)
Theorem log_keeps_200_lines (st : state) (tag : LogTag) :
  reachable st ->
  (length (logs st) <= 200)%nat
  /\ logs (addLog tag st)
     = skipn (length (logs st) - 199) (logs st) ++ [tag]
  /\ length (logs (addLog tag st)) = S (Nat.min (length (logs st)) 199)
  /\ ((length (logs st) <= 199)%nat -> logs (addLog tag st) = logs st ++ [tag]).
Proof.
  intros Hr. split; [|split; [|split]].
  - revert st Hr. apply (reachable_induction log_bounded).
    + cbn. unfold log_bounded. cbn. lia.
    + apply step_log_bounded.
  - destruct st; reflexivity.
  - apply addLog_length.
  - intros Hl. destruct st; cbn in *.
    replace (length logs0 - 199)%nat with 0%nat by lia. reflexivity.
Qed.

Lemma log_keeps_200_lines_witness :
  (length (logs st_queued) <= 200)%nat
  /\ logs (addLog WARN st_queued)
     = skipn (length (logs st_queued) - 199) (logs st_queued) ++ [WARN]
  /\ length (logs (addLog WARN st_queued))
     = S (Nat.min (length (logs st_queued)) 199)
  /\ ((length (logs st_queued) <= 199)%nat ->
      logs (addLog WARN st_queued) = logs st_queued ++ [WARN]).
Proof.
  apply (log_keeps_200_lines st_queued WARN). eexists; reflexivity.
Defined.

(** ** The transcript *)

Lemma trimStart_fixed (t : jsstring) :
  (forall c r, t = c :: r -> is_white c = false) -> trimStart t = t.
Proof.
  destruct t as [|c r]; [reflexivity|]. intros H. cbn.
  rewrite (H c r eq_refl). reflexivity.
Qed.

Lemma trimStart_suffix (t : jsstring) : exists pre, t = pre ++ trimStart t.
Proof.
  induction t as [|c r [pre IH]]; [exists []; reflexivity|].
  cbn. destruct (is_white c).
  - exists (c :: pre). cbn. rewrite <- IH. reflexivity.
  - exists []. reflexivity.
Qed.

Lemma trim_head (t : jsstring) (c : N) (r : jsstring) :
  trim t = c :: r -> is_white c = false.
Proof.
  unfold trim. intros H.
  destruct (trimStart_suffix (rev (trimStart t))) as [pre Hp].
  apply (f_equal (@rev N)) in Hp. rewrite rev_involutive, rev_app_distr, H in Hp.
  cbn in Hp. eapply trimStart_head. exact Hp.
Qed.

Lemma append_text_head (prev txt : jsstring) (c : N) (r : jsstring) :
  (forall c r, prev = c :: r -> is_white c = false) ->
  (forall c r, txt = c :: r -> is_white c = false) ->
  append_text prev txt = c :: r -> is_white c = false.
Proof.
  intros Hp Ht. unfold append_text. destruct prev as [|d p]; cbn.
  - apply Ht.
  - intros H. injection H as <- _. eapply Hp. reflexivity.
Qed.

Lemma step_head_ok (st : state) (ev : Event) : head_ok st -> head_ok (step st ev).
Proof.
  unfold head_ok. intros H.
  destruct ev; cbn [step]; unfold_handlers; destruct st; cbn in H;
    handler_cases; cbn; intros ? ? ?; try (eapply H; eassumption);
    try discriminate.
  eapply append_text_head; [exact H| |eassumption]. apply trim_head.
Qed.

Lemma trim_fixed (t : jsstring) :
  (forall c r, t = c :: r -> is_white c = false) ->
  (forall c, last_unit t = Some c -> is_white c = false) ->
  trim t = t.
Proof.
  intros Hh Hl. unfold trim. rewrite (trimStart_fixed t Hh).
  rewrite trimStart_fixed; [apply rev_involutive|].
  intros c r E. apply Hl. unfold last_unit. rewrite E. reflexivity.
Qed.

(** X8.  The transcript never starts or ends with whitespace:
    trimming it changes nothing.  The save action, which tests the
    trimmed transcript, therefore goes through for every non-empty
    transcript of a stopped page, and empties the transcript. *)
Theorem transcript_is_trimmed (st : state) :
  reachable st ->
  trim (transcript st) = transcript st
  /\ (transcript st <> [] -> isRecording st = false ->
      transcript (step st ClickSave) = []).
Proof.
  intros Hr.
  assert (Hh : head_ok st).
  { revert st Hr. apply (reachable_induction head_ok).
    - intros c r E. discriminate E.
    - apply step_head_ok. }
  pose proof (trim_fixed _ Hh (reachable_transcript_ok st Hr)) as Ht.
  split; [assumption|]. intros Hne Hrec. cbn [step]. unfold clickSave.
  rewrite Ht, Hrec.
  destruct (transcript st) as [|c r] eqn:E; [congruence|].
  destruct st; cbn in *. reflexivity.
Qed.

Lemma transcript_is_trimmed_witness :
  transcript st_bonjour_stopped = of_string "bonjour"
  /\ trim (transcript st_bonjour_stopped) = transcript st_bonjour_stopped
  /\ transcript (step st_bonjour_stopped ClickSave) = [].
Proof.
  split; [vm_compute; reflexivity|].
  assert (Hr : reachable st_bonjour_stopped).
  { exists [ClickMain; UserMedia (Some 16000%float);
            AudioProcess [0.5; 0.5]%float; ChunkTimer; Base64Loaded 0 true;
            WsOpen 0;
            WsMessage 0 (Result (Some (JStr (of_string " bonjour "))));
            ClickMain].
    vm_compute. reflexivity. }
  destruct (transcript_is_trimmed st_bonjour_stopped Hr) as [Ht Hs].
  split; [assumption|]. apply Hs.
  - vm_compute. discriminate.
  - vm_compute. reflexivity.
Defined.

Lemma trim_idempotent (t : jsstring) : trim (trim t) = trim t.
Proof. apply trim_fixed; [apply trim_head|apply trim_last]. Qed.

Lemma append_text_join (prev txt : jsstring) :
  (forall c, last_unit prev = Some c -> is_white c = false) ->
  append_text prev txt = join_one prev txt.
Proof.
  intros H. destruct (append_text_spec prev txt H) as [Ha Hw].
  rewrite Ha. unfold spec_append, join_one. rewrite Hw.
  destruct prev; reflexivity.
Qed.

Lemma step_joined (st : state) (ev : Event) :
  transcript_ok st -> joined st -> joined (step st ev).
Proof.
  unfold joined, transcript_ok. intros Hok (l & Hl & Ht).
  destruct ev; cbn [step]; unfold_handlers; destruct st; cbn in Hok, Ht;
    handler_cases; cbn;
    try (exists l; split; assumption);
    try (exists []; split; [constructor|reflexivity]).
  match goal with
  | H : negb (Z.of_nat (length (trim ?t)) =? 0) = true |- _ =>
      apply negb_true_iff, length_zero_nil in H;
      exists (l ++ [trim t]); split;
      [apply Forall_app; split; [assumption|];
       constructor; [split; [exact H|apply trim_idempotent]|constructor]
      |unfold join_texts; rewrite fold_left_app; cbn [fold_left];
       fold (join_texts l); rewrite <- Ht; apply append_text_join; exact Hok]
  end.
Qed.

(** X9.  At every moment the transcript is the join, with single
    spaces, of a list of texts that are each non-empty and trimmed. *)
Theorem transcript_is_space_joined (st : state) :
  reachable st ->
  exists l, Forall (fun t => t <> [] /\ trim t = t) l
            /\ transcript st = join_texts l.
Proof.
  intros Hr.
  assert (H : transcript_ok st /\ joined st).
  { revert st Hr. apply (reachable_induction (fun s => transcript_ok s /\ joined s)).
    - split; [intros c Hc; discriminate Hc|]. exists []. split; [constructor|reflexivity].
    - intros st ev [H1 H2]. split; [apply step_transcript_ok|apply step_joined]; assumption. }
  exact (proj2 H).
Qed.

Lemma transcript_is_space_joined_witness :
  transcript st_three_results = of_string "bonjour docteur"
  /\ exists l, Forall (fun t => t <> [] /\ trim t = t) l
               /\ transcript st_three_results = join_texts l.
Proof.
  split; [vm_compute; reflexivity|].
  apply (transcript_is_space_joined st_three_results).
  exists [ClickMain; UserMedia (Some 16000%float);
          AudioProcess [0.5; 0.5]%float; ChunkTimer; Base64Loaded 0 true;
          WsOpen 0;
          WsMessage 0 (Result (Some (JStr (of_string " bonjour "))));
          WsMessage 0 (Result (Some (JStr (of_string "   "))));
          WsMessage 0 (Result None);
          WsMessage 0 (Result (Some (JStr (of_string "docteur "))))].
  vm_compute. reflexivity.
Defined.

(** * Further properties of the audio path *)

(** ** Silence and NaN at the gate of the chunker *)

Lemma eqb_zero (v : float) : (v =? 0)%float = true -> v = 0%float \/ v = (-0)%float.
Proof.
  rewrite FloatAxioms.eqb_spec. change (Prim2SF 0) with (S754_zero false).
  intros H. rewrite <- (SF2Prim_Prim2SF v).
  destruct (Prim2SF v) as [s|s| |s m e]; try destruct s; try discriminate H; auto.
Qed.

Lemma energy_of_zeros (l : list float) :
  Forall (fun v => (v =? 0)%float = true) l ->
  fold_left (fun s v => s + v * v)%float l 0%float = 0%float.
Proof.
  induction 1 as [|v l Hv _ IH]; [reflexivity|].
  cbn [fold_left]. destruct (eqb_zero v Hv) as [-> | ->]; exact IH.
Qed.

Lemma zero_div_length (n : Z) : 0 < n < 2 ^ 53 -> (0 / of_Z n)%float = 0%float.
Proof.
  intros [H0 H1]. destruct n as [|p|p]; try lia.
  destruct (Prim2SF_of_Z_pos p H1) as (m & e & Hx & _).
  apply Prim2SF_inj. rewrite FloatAxioms.div_spec, Hx. reflexivity.
Qed.

Lemma rms_of_zeros (l : list float) :
  0 < Z.of_nat (length l) < 2 ^ 53 ->
  Forall (fun v => (v =? 0)%float = true) l -> rms_of l = 0%float.
Proof.
  intros Hl Hz. unfold rms_of. rewrite (energy_of_zeros l Hz).
  rewrite (zero_div_length _ Hl). reflexivity.
Qed.

(** X10.  A capture buffer whose samples are all zero is never
    sent: the flush drops it as silence, whatever the native rate, and
    leaves the queue, the sends in flight and the chunk history as they
    were. *)
Theorem zero_buffer_is_dropped (st : state) :
  0 < Z.of_nat (length (concat (pcmBuf st))) < 2 ^ 53 ->
  Forall (fun v => (v =? 0)%float = true) (concat (pcmBuf st)) ->
  flushChunk st = (addLog DROP (set_pcmBuf [] st), Normal)
  /\ wsQueue (fst (flushChunk st)) = wsQueue st
  /\ jobs (fst (flushChunk st)) = jobs st
  /\ history (fst (flushChunk st)) = history st.
Proof.
  intros Hl Hz.
  assert (Hne : pcmBuf st <> []).
  { intros E. rewrite E in Hl. cbn in Hl. lia. }
  assert (Hs : (rms_of (concat (pcmBuf st)) <? SILENCE)%float = true).
  { rewrite (rms_of_zeros _ Hl Hz). reflexivity. }
  rewrite (flushChunk_silent st Hne Hs). cbn [fst].
  unfold history. destruct st; cbn. auto.
Qed.

Lemma zero_buffer_is_dropped_witness :
  let st := set_nativeSR 48000%float
              (set_pcmBuf [[0; -0; 0]%float; [0; 0]%float] st_queued) in
  flushChunk st = (addLog DROP (set_pcmBuf [] st), Normal)
  /\ wsQueue (fst (flushChunk st)) = wsQueue st
  /\ jobs (fst (flushChunk st)) = jobs st
  /\ history (fst (flushChunk st)) = history st.
Proof.
  apply (zero_buffer_is_dropped
           (set_nativeSR 48000%float
              (set_pcmBuf [[0; -0; 0]%float; [0; 0]%float] st_queued))).
  - vm_compute. split; reflexivity.
  - vm_compute. repeat constructor.
Defined.

Lemma is_nan_add_r (a b : float) : is_nan b = true -> is_nan (a + b)%float = true.
Proof.
  rewrite !is_nan_Prim2SF, FloatAxioms.add_spec.
  destruct (Prim2SF b); try discriminate. intros _.
  destruct (Prim2SF a); reflexivity.
Qed.

Lemma is_nan_add_l (a b : float) : is_nan a = true -> is_nan (a + b)%float = true.
Proof.
  rewrite !is_nan_Prim2SF, FloatAxioms.add_spec.
  destruct (Prim2SF a); try discriminate. intros _. reflexivity.
Qed.

Lemma is_nan_square (v : float) : is_nan v = true -> is_nan (v * v)%float = true.
Proof.
  rewrite !is_nan_Prim2SF, FloatAxioms.mul_spec.
  destruct (Prim2SF v); try discriminate. intros _. reflexivity.
Qed.

Lemma energy_nan_stays (l : list float) : forall s,
  is_nan s = true -> is_nan (fold_left (fun s v => s + v * v)%float l s) = true.
Proof.
  induction l as [|v l IH]; intros s Hs; [exact Hs|].
  cbn [fold_left]. apply IH. apply is_nan_add_l. exact Hs.
Qed.

Lemma energy_nan (l : list float) : forall s,
  Exists (fun v => is_nan v = true) l ->
  is_nan (fold_left (fun s v => s + v * v)%float l s) = true.
Proof.
  induction l as [|v l IH]; intros s H; inversion H; subst; cbn [fold_left].
  - apply energy_nan_stays. apply is_nan_add_r. apply is_nan_square. assumption.
  - apply IH. assumption.
Qed.

Lemma rms_nan (l : list float) :
  Exists (fun v => is_nan v = true) l -> is_nan (rms_of l) = true.
Proof.
  intros H. unfold rms_of. pose proof (energy_nan l 0%float H) as E.
  rewrite is_nan_Prim2SF in *. rewrite FloatAxioms.sqrt_spec, FloatAxioms.div_spec.
  destruct (Prim2SF (fold_left _ l 0%float)); try discriminate. reflexivity.
Qed.

Lemma nan_not_below (x c : float) : is_nan x = true -> (x <? c)%float = false.
Proof.
  rewrite is_nan_Prim2SF, FloatAxioms.ltb_spec.
  destruct (Prim2SF x); try discriminate. reflexivity.
Qed.

(** X11.  A capture buffer that holds a NaN sample is never taken
    for silence: its energy is NaN, the comparison with the threshold
    fails, and the flush emits the buffer as one chunk. *)
Theorem nan_buffer_is_emitted (st : state) :
  rate_supported (nativeSR st) = true ->
  Z.of_nat (length (concat (pcmBuf st))) < 2 ^ 48 ->
  Exists (fun v => is_nan v = true) (concat (pcmBuf st)) ->
  (rms_of (concat (pcmBuf st)) <? SILENCE)%float = false
  /\ exists w, encode (concat (pcmBuf st)) (nativeSR st) = Some w
               /\ history (fst (flushChunk st)) = history st ++ [w].
Proof.
  intros Hr Hl Hn.
  assert (Hs : (rms_of (concat (pcmBuf st)) <? SILENCE)%float = false)
    by (apply nan_not_below, rms_nan; exact Hn).
  split; [exact Hs|].
  assert (Hne : pcmBuf st <> []).
  { intros E. rewrite E in Hn. inversion Hn. }
  destruct (encode_defined _ _ Hr Hl) as [w Hw]. exists w. split; [exact Hw|].
  rewrite (flushChunk_voiced st w Hne Hs Hw). cbn [fst].
  rewrite processQueue_history. unfold history. destruct st; cbn.
  apply app_assoc.
Qed.

Lemma nan_buffer_is_emitted_witness :
  let st := set_pcmBuf [[0; nan; 0]%float] st_voiced in
  (rms_of (concat (pcmBuf st)) <? SILENCE)%float = false
  /\ exists w, encode (concat (pcmBuf st)) (nativeSR st) = Some w
               /\ history (fst (flushChunk st)) = history st ++ [w].
Proof.
  apply (nan_buffer_is_emitted (set_pcmBuf [[0; nan; 0]%float] st_voiced)).
  - reflexivity.
  - vm_compute. reflexivity.
  - vm_compute. right. left. reflexivity.
Defined.

(** ** The resampler on no samples *)

Lemma zero_over_any (r : float) :
  Prim2SF (0 / r)%float = S754_nan \/ exists s, Prim2SF (0 / r)%float = S754_zero s.
Proof.
  rewrite FloatAxioms.div_spec. change (Prim2SF 0) with (S754_zero false).
  destruct (Prim2SF r) as [s|s| |s m e]; cbn; eauto.
Qed.

Lemma ToIndex_round_zero (y : float) :
  Prim2SF y = S754_nan \/ (exists s, Prim2SF y = S754_zero s) ->
  ToIndex (Math_round y) = Some 0.
Proof.
  intros [H|[s H]]; unfold Math_round; rewrite H; unfold ToIndex; rewrite H; reflexivity.
Qed.

(** X12.  An empty signal.  Whatever the native rate (zero,
    negative, infinite and NaN included), resampling no samples gives
    no samples and raises nothing, and the encoder turns them into a
    file that is only the 44-byte header. *)
Theorem resample_empty (sr : float) :
  resample [] sr = Some []
  /\ exists w, encode [] sr = Some w /\ size w = 44
               /\ bytes w = wav_header 0 TARGET_SR_hz.
Proof.
  assert (R : resample [] sr = Some []).
  { unfold resample. destruct (sr =? TARGET_SR)%float; [reflexivity|].
    cbn [length]. change (of_Z (Z.of_nat 0)) with 0%float.
    rewrite (ToIndex_round_zero _ (zero_over_any _)). reflexivity. }
  split; [exact R|]. unfold encode. rewrite R. cbn [bind].
  rewrite toWav_bytes. eexists. split; [reflexivity|]. split; reflexivity.
Qed.

(** ** The sample conversion between -1 and 1 *)


















(** ** Reading the container back *)

Lemma le_bytes_value (k : nat) : forall v,
  0 <= v < 256 ^ Z.of_nat k -> le_value (le_bytes k v) = v.
Proof.
  induction k as [|k IH]; intros v H.
  - change (256 ^ Z.of_nat 0) with 1 in H. cbn. lia.
  - cbn [le_bytes le_value fold_right]. fold (le_value (le_bytes k (v / 256))).
    rewrite IH.
    + pose proof (Z.div_mod v 256 ltac:(lia)). lia.
    + rewrite Nat2Z.inj_succ, Z.pow_succ_r in H by lia.
      split; [apply Z.div_pos; lia|apply Z.div_lt_upper_bound; lia].
Qed.

Lemma le_bytes_are_bytes (k : nat) : forall v, Forall is_byte (le_bytes k v).
Proof.
  induction k as [|k IH]; intros v; cbn [le_bytes]; constructor; [|apply IH].
  apply Z.mod_pos_bound. lia.
Qed.

Lemma length_le_bytes (k : nat) : forall v, length (le_bytes k v) = k.
Proof. induction k as [|k IH]; intros v; cbn [le_bytes length]; [|rewrite IH]; reflexivity. Qed.

Lemma wav_header_length (n sr : Z) : length (wav_header n sr) = 44%nat.
Proof. reflexivity. Qed.

Lemma pcm_at (f32 : list float) : forall (i : nat) (x : float),
  nth_error f32 i = Some x ->
  firstn 2 (skipn (2 * i) (flat_map pcm_bytes f32)) = pcm_bytes x.
Proof.
  induction f32 as [|y f32 IH]; intros [|i] x H; try discriminate.
  - injection H as ->. reflexivity.
  - replace (2 * S i)%nat with (S (S (2 * i))) by lia.
    cbn [flat_map]. change (pcm_bytes y) with
      [ToInt16 (scaled y) mod 65536 mod 256; ToInt16 (scaled y) mod 65536 / 256 mod 256].
    cbn [app skipn]. apply IH. exact H.
Qed.

Lemma as_int16_wrap (t : Z) :
  -32768 <= t <= 32767 -> as_int16 (t mod 65536) = t.
Proof.
  intros H. unfold as_int16.
  pose proof (Z.div_mod t 65536 ltac:(lia)) as D.
  pose proof (Z.mod_pos_bound t 65536 ltac:(lia)) as R.
  destruct (Z.ltb_spec (t mod 65536) 32768); lia.
Qed.

(** X14.  What a reader of the WAV container finds.  Every
    element of the blob is a byte; the sample rate field reads 16000
    and the byte rate 32000; sample [i] is the 16-bit field at offset
    [44 + 2 i] and reads back as the integer [toWav] converted it to;
    and, when the file is shorter than 4 GiB, the RIFF size field is
    the file size less 8 and the data size field the file size less
    44. *)
Theorem wav_reads_back (f32 : list float) :
  exists b,
    toWav f32 TARGET_SR_hz = Some b
    /\ Forall is_byte (bytes b)
    /\ field (bytes b) 24 4 = 16000
    /\ field (bytes b) 28 4 = 32000
    /\ (forall i x, nth_error f32 i = Some x ->
          as_int16 (field (bytes b) (44 + 2 * i) 2) = ToInt16 (scaled x))
    /\ (size b < 2 ^ 32 ->
          field (bytes b) 4 4 = size b - 8 /\ field (bytes b) 40 4 = size b - 44).
Proof.
  rewrite toWav_bytes. eexists. split; [reflexivity|].
  set (n := Z.of_nat (length f32)). cbn [bytes].
  split; [|split; [|split; [|split]]].
  - apply Forall_app. split.
    + unfold wav_header.
      repeat (apply Forall_app; split);
        try apply le_bytes_are_bytes;
        repeat constructor; unfold is_byte; lia.
    + apply Forall_flat_map. apply Forall_forall. intros x _.
      apply le_bytes_are_bytes.
  - reflexivity.
  - reflexivity.
  - intros i x Hx. unfold field.
    rewrite skipn_app, wav_header_length.
    rewrite (skipn_all2 (wav_header n TARGET_SR_hz))
      by (rewrite wav_header_length; lia).
    replace (44 + 2 * i - 44)%nat with (2 * i)%nat by lia.
    cbn [app]. rewrite (pcm_at f32 i x Hx). unfold pcm_bytes.
    rewrite le_bytes_value.
    + apply as_int16_wrap. apply ToInt16_range.
    + change (256 ^ Z.of_nat 2) with 65536. apply Z.mod_pos_bound. lia.
  - unfold size. cbn [bytes]. rewrite length_app, wav_header_length.
    assert (Hl : length (flat_map pcm_bytes f32) = (2 * length f32)%nat).
    { clear. induction f32 as [|y l IH]; [reflexivity|].
      cbn [flat_map]. rewrite length_app, IH. unfold pcm_bytes.
      rewrite length_le_bytes. cbn [length]. lia. }
    rewrite Hl. intros Hs.
    assert (Hn : 0 <= n * 2 /\ 44 + n * 2 < 2 ^ 32) by (unfold n; lia).
    unfold field, wav_header. cbn [le_bytes app skipn firstn].
    split.
    + match goal with |- le_value [?a mod 256; _; _; _] = _ =>
        change (le_value (le_bytes 4 a) = Z.of_nat (44 + 2 * length f32) - 8);
        rewrite le_bytes_value
      end.
      * rewrite Z.mod_small; lia.
      * change (256 ^ Z.of_nat 4) with 4294967296. apply Z.mod_pos_bound. lia.
    + match goal with |- le_value [?a mod 256; _; _; _] = _ =>
        change (le_value (le_bytes 4 a) = Z.of_nat (44 + 2 * length f32) - 44);
        rewrite le_bytes_value
      end.
      * rewrite Z.mod_small; lia.
      * change (256 ^ Z.of_nat 4) with 4294967296. apply Z.mod_pos_bound. lia.
Qed.

(** * The history page *)

Lemma filter_rev_comm {A : Type} (f : A -> bool) (l : list A) :
  filter f (rev l) = rev (filter f l).
Proof.
  induction l as [|a l IH]; [reflexivity|].
  cbn [rev filter]. rewrite filter_app, IH. cbn [filter].
  destruct (f a); cbn [rev]; [reflexivity|apply app_nil_r].
Qed.

(** X15.  Deleting a recording.  After a confirmed delete the
    page shows exactly the recordings it showed before whose id differs
    from the chosen one, the stored array is the array shown, and a
    selection of the deleted recording is dropped; a declined
    confirmation changes nothing. *)
Theorem delete_removes_exactly (st : History.state) (i : string) (r : History.Recording) :
  (In r (History.recordings (History.deleteRecording i true st))
   <-> In r (History.recordings st) /\ History.id r <> i)
  /\ History.medvoice_recordings (History.deleteRecording i true st)
     = Some (History.recordings (History.deleteRecording i true st))
  /\ (forall s, History.selectedRecording (History.deleteRecording i true st) = Some s ->
        History.selectedRecording st = Some s /\ History.id s <> i)
  /\ History.deleteRecording i false st = st.
Proof.
  unfold History.deleteRecording. cbn.
  split; [|split; [reflexivity|split; [|reflexivity]]].
  - rewrite <- in_rev, filter_In, negb_true_iff.
    split; intros [H1 H2]; (split; [exact H1|]).
    + intros E. apply String.eqb_eq in E. congruence.
    + destruct (String.eqb_spec (History.id r) i); [contradiction|reflexivity].
  - intros s. destruct (History.selectedRecording st) as [r'|]; [|discriminate].
    destruct (String.eqb_spec (History.id r') i) as [E|E]; [discriminate|].
    intros H. injection H as <-. split; [reflexivity|exact E].
Qed.

(** X16.  The order of the list shown.  After a save and a load
    the page shows the newest recording first; a confirmed delete
    leaves the page showing the remaining recordings oldest first, in
    the order of the stored array; loading again shows them newest
    first. *)
Theorem delete_reverses_display (l : list History.Recording) (r : History.Recording) (i : string) :
  let keep := fun x => negb (String.eqb (History.id x) i) in
  let st := History.loadRecordings (History.push r (History.init (Some l))) in
  History.recordings st = r :: rev l
  /\ History.recordings (History.deleteRecording i true st) = filter keep (l ++ [r])
  /\ History.recordings (History.loadRecordings (History.deleteRecording i true st))
     = filter keep (r :: rev l).
Proof.
  cbv zeta. unfold History.loadRecordings, History.push, History.init,
    History.deleteRecording. cbn [History.medvoice_recordings History.recordings negb].
  rewrite rev_app_distr. cbn [rev app].
  split; [reflexivity|]. split.
  - rewrite <- filter_rev_comm. cbn [rev]. rewrite rev_involutive. reflexivity.
  - rewrite rev_involutive. reflexivity.
Qed.

(** * The forms page *)

Lemma saveForm_cases (st : Forms.state) :
  (complete (Forms.formData st)
   /\ Forms.saveForm st
      = {| Forms.transcript := []; Forms.isExtracting := Forms.isExtracting st;
           Forms.error := Forms.error st;
           Forms.savedRecordings := Forms.savedRecordings st;
           Forms.selectedRecordingId := EmptyString; Forms.formData := [];
           Forms.medvoice_forms :=
             Forms.medvoice_forms st
             ++ [{| Forms.data := Forms.formData st;
                    Forms.form_transcript := Forms.transcript st |}] |})
  \/ (~ complete (Forms.formData st)
      /\ exists names,
           names <> []
           /\ (forall n, In n names <->
                 In n ["nom"; "prenom"; "symptomes"]%string
                 /\ Forms.blank (Forms.get (Forms.formData st) n) = true)
           /\ Forms.saveForm st
              = {| Forms.transcript := Forms.transcript st;
                   Forms.isExtracting := Forms.isExtracting st;
                   Forms.error := Some (Forms.MissingFields names);
                   Forms.savedRecordings := Forms.savedRecordings st;
                   Forms.selectedRecordingId := Forms.selectedRecordingId st;
                   Forms.formData := Forms.formData st;
                   Forms.medvoice_forms := Forms.medvoice_forms st |}).
Proof.
  unfold Forms.saveForm, complete.
  cbn [filter Forms.MEDICAL_FORM Forms.required Forms.name].
  destruct (Forms.blank (Forms.get (Forms.formData st) "nom")) eqn:E1,
           (Forms.blank (Forms.get (Forms.formData st) "prenom")) eqn:E2,
           (Forms.blank (Forms.get (Forms.formData st) "symptomes")) eqn:E3;
    cbn [length map Forms.name Z.of_nat Pos.of_succ_nat Pos.succ Z.ltb Z.compare];
    try (left; split; [repeat split|reflexivity]; fail);
    right; (split; [intros (H1 & H2 & H3); discriminate|]);
    eexists; (split; [|split; [|reflexivity]]); try discriminate;
    intros n; cbn [In];
    (split;
     [ intros H; repeat destruct H as [H|H]; try contradiction; subst n; auto 8
     | intros [H B]; repeat destruct H as [H|H]; try contradiction; subst n;
       auto 8; congruence ]).
Qed.

(** X17.  Saving the form.  [saveForm] stores the form when the
    three required fields (nom, prenom, symptomes) hold text that is
    not blank: it then appends the form with the transcript to the
    stored forms and clears the form, the transcript and the selection.
    Otherwise it stores nothing, keeps the form and reports the
    required fields that are missing or blank. *)
Theorem saveForm_validates (st : Forms.state) :
  (complete (Forms.formData st) ->
     Forms.medvoice_forms (Forms.saveForm st)
     = Forms.medvoice_forms st
       ++ [{| Forms.data := Forms.formData st;
              Forms.form_transcript := Forms.transcript st |}]
     /\ Forms.formData (Forms.saveForm st) = []
     /\ Forms.transcript (Forms.saveForm st) = []
     /\ Forms.selectedRecordingId (Forms.saveForm st) = EmptyString)
  /\ (~ complete (Forms.formData st) ->
     Forms.medvoice_forms (Forms.saveForm st) = Forms.medvoice_forms st
     /\ Forms.formData (Forms.saveForm st) = Forms.formData st
     /\ Forms.transcript (Forms.saveForm st) = Forms.transcript st
     /\ exists names,
          Forms.error (Forms.saveForm st) = Some (Forms.MissingFields names)
          /\ names <> []
          /\ forall n, In n names <->
               In n ["nom"; "prenom"; "symptomes"]%string
               /\ Forms.blank (Forms.get (Forms.formData st) n) = true).
Proof.
  destruct (saveForm_cases st) as [[C E]|[C (names & N & I & E)]]; rewrite E;
    cbn [Forms.medvoice_forms Forms.formData Forms.transcript
         Forms.selectedRecordingId Forms.error]; split; intros H;
    try contradiction; auto.
  repeat split; try reflexivity. exists names. auto.
Qed.

Lemma step_forms_complete (st : Forms.state) (ev : Forms.Event) :
  Forall (fun f => complete (Forms.data f)) (Forms.medvoice_forms st) ->
  Forall (fun f => complete (Forms.data f)) (Forms.medvoice_forms (Forms.step st ev)).
Proof.
  intros H. destruct ev; cbn [Forms.step].
  - unfold Forms.loadExistingRecording. destruct (find _ _); exact H.
  - destruct (_ || _); [exact H|]. unfold Forms.autoFillForm.
    destruct (Forms.blank _); exact H.
  - destruct (Forms.isExtracting st); exact H.
  - exact H.
  - destruct (Forms.formData st) eqn:D; [exact H|].
    destruct (saveForm_cases st) as [[C E]|[C (names & N & I & E)]]; rewrite E;
      cbn [Forms.medvoice_forms]; [|exact H].
    apply Forall_app. split; [exact H|]. constructor; [exact C|constructor].
Qed.

(** X18.  What the forms store holds.  Whatever the user and the
    extraction request do, starting from an empty store, every stored
    form has text that is not blank in each of its three required
    fields. *)
Theorem stored_forms_are_complete
    (recs : list Forms.SavedRecording) (evs : list Forms.Event) (f : Forms.SavedForm) :
  In f (Forms.medvoice_forms (Forms.run (Forms.init recs []) evs)) ->
  Forms.blank (Forms.get (Forms.data f) "nom") = false
  /\ Forms.blank (Forms.get (Forms.data f) "prenom") = false
  /\ Forms.blank (Forms.get (Forms.data f) "symptomes") = false.
Proof.
  assert (G : forall evs st,
             Forall (fun f => complete (Forms.data f)) (Forms.medvoice_forms st) ->
             Forall (fun f => complete (Forms.data f))
                    (Forms.medvoice_forms (Forms.run st evs))).
  { clear. induction evs as [|ev evs IH]; intros st H; [exact H|].
    cbn [Forms.run fold_left]. apply IH. apply step_forms_complete. exact H. }
  intros H. specialize (G evs (Forms.init recs []) (Forall_nil _)).
  rewrite Forall_forall in G. exact (G f H).
Qed.

Lemma stored_forms_are_complete_witness :
  let evs := [Forms.Change "nom" (Str.of_string "Durand");
              Forms.Change "prenom" (Str.of_string "Anne");
              Forms.ClickSave;
              Forms.Change "symptomes" (Str.of_string "toux");
              Forms.ClickSave;
              Forms.Change "nom" (Str.of_string "Durand");
              Forms.Change "prenom" (Str.of_string "Anne");
              Forms.Change "symptomes" (Str.of_string "toux");
              Forms.Change "nom" (Str.of_string "Martin");
              Forms.ClickSave]%string in
  let f := {| Forms.data := [("nom", Str.of_string "Martin");
                             ("symptomes", Str.of_string "toux");
                             ("prenom", Str.of_string "Anne");
                             ("nom", Str.of_string "Durand")]%string;
              Forms.form_transcript := [] |} in
  In f (Forms.medvoice_forms (Forms.run (Forms.init [] []) evs))
  /\ Forms.get (Forms.data f) "nom" = Some (Str.of_string "Martin")
  /\ Forms.blank (Forms.get (Forms.data f) "nom") = false
  /\ Forms.blank (Forms.get (Forms.data f) "prenom") = false
  /\ Forms.blank (Forms.get (Forms.data f) "symptomes") = false.
Proof.
  cbv zeta. split; [|split; [reflexivity|]].
  - vm_compute. auto.
  - apply (stored_forms_are_complete []
             [Forms.Change "nom" (Str.of_string "Durand");
              Forms.Change "prenom" (Str.of_string "Anne");
              Forms.ClickSave;
              Forms.Change "symptomes" (Str.of_string "toux");
              Forms.ClickSave;
              Forms.Change "nom" (Str.of_string "Durand");
              Forms.Change "prenom" (Str.of_string "Anne");
              Forms.Change "symptomes" (Str.of_string "toux");
              Forms.Change "nom" (Str.of_string "Martin");
              Forms.ClickSave]%string).
    vm_compute. auto.
Defined.

(** * The stopwatch display *)

Lemma shows_mm_ss_below_6000 :
  forallb (fun i => shows_mm_ss (Z.of_nat i)) (seq 0 (Z.to_nat 6000)) = true.
Proof. vm_compute. reflexivity. Qed.

Lemma shows_mm_ss_true (k : Z) : 0 <= k < 6000 -> shows_mm_ss k = true.
Proof.
  intros H. pose proof shows_mm_ss_below_6000 as A. rewrite forallb_forall in A.
  specialize (A (Z.to_nat k)). rewrite Z2Nat.id in A by lia.
  apply A. apply in_seq. lia.
Qed.

(** X19.  The stopwatch.  For a recording time of less than 100
    minutes [formatTime] shows the five characters MM:SS, minutes and
    seconds each as two decimal digits, and two different times are
    never shown alike. *)
Theorem formatTime_mm_ss (k k' : Z) :
  0 <= k < 6000 -> 0 <= k' < 6000 ->
  Clock.formatTime (of_Z k) = Some (mm_ss k)
  /\ String.length (mm_ss k) = 5%nat
  /\ (Clock.formatTime (of_Z k) = Clock.formatTime (of_Z k') -> k = k').
Proof.
  intros H H'.
  pose proof (shows_mm_ss_true k H) as A. pose proof (shows_mm_ss_true k' H') as A'.
  unfold shows_mm_ss in A, A'.
  destruct (Clock.formatTime (of_Z k)) as [t|]; [|discriminate A].
  destruct (Clock.formatTime (of_Z k')) as [t'|]; [|discriminate A'].
  apply andb_prop in A. destruct A as [E S]. apply String.eqb_eq in E.
  apply andb_prop in A'. destruct A' as [_ S'].
  apply Z.eqb_eq in S. apply Z.eqb_eq in S'.
  split; [congruence|]. split; [reflexivity|].
  intros Q. injection Q as ->. congruence.
Qed.

Lemma formatTime_mm_ss_witness :
  Clock.formatTime 125 = Some "02:05"%string
  /\ Clock.formatTime (of_Z 125) = Some (mm_ss 125)
  /\ String.length (mm_ss 125) = 5%nat
  /\ (Clock.formatTime (of_Z 125) = Clock.formatTime (of_Z 3599) -> 125 = 3599).
Proof.
  split; [vm_compute; reflexivity|]. apply (formatTime_mm_ss 125 3599); lia.
Defined.
